(** * go-mapnik/maptiles: coordinate model, render workers, layer multiplexer,
      tile cache and tile server, embedded from the Go sources.

    Conventions of the embedding
    - [uint64] and [int] values are integers in [Z]; every arithmetic
      operation of the source is followed by the wrap-around Go performs
      (package [Go] below).  [int] is the 64-bit signed type.
    - a Go [panic] is the [Panicked] constructor of [result]; a function that
      also writes to a channel returns the channel contents next to it.
    - a [[]byte] is [option (list byte)]: [None] is the nil slice.
    - an [error] is [option error]: [None] is nil.
    - a channel is the list of the values sent on it, oldest first.
    - the mapnik engine, the PNG codec and MD5 are capabilities the code
      consumes: they are the fields of the classes [Renderer] and [Md5];
      the SQL store is the record [Db], with the failure of its statements
      as a field. *)

From Stdlib Require Import ZArith Lia.
From Stdlib Require DecimalString DecimalN.
From stdpp Require Import base gmap strings list.

Local Open Scope Z_scope.

(* ===================================================================== *)
(** * Go integers *)
(* ===================================================================== *)

Module Go.

Definition is_uint64 (z : Z) : Prop := 0 ≤ z < 2 ^ 64.

Definition wrap64 (z : Z) : Z := z `mod` 2 ^ 64.

Definition add64 (a b : Z) : Z := wrap64 (a + b).
Definition sub64 (a b : Z) : Z := wrap64 (a - b).
Definition mul64 (a b : Z) : Z := wrap64 (a * b).

(** [a << n] at type [uint64] with an unsigned shift count: the bits shifted
    past position 63 are lost, so the result is 0 once [n >= 64]. *)
Definition shl64 (a n : Z) : Z := wrap64 (Z.shiftl a n).

(** The conversion [int(x)] of a [uint64]: same bits, read as two's
    complement. *)
Definition int_of_uint64 (z : Z) : Z := if z <? 2 ^ 63 then z else z - 2 ^ 64.

(** The conversion [uint64(x)] of an [int]. *)
Definition uint64_of_int (z : Z) : Z := wrap64 z.

(** Arithmetic at type [int]. *)
Definition wrap_int (z : Z) : Z := int_of_uint64 (wrap64 z).
Definition add_int (a b : Z) : Z := wrap_int (a + b).
Definition mul_int (a b : Z) : Z := wrap_int (a * b).

End Go.

Import Go.

(* ===================================================================== *)
(** * Panics and results *)
(* ===================================================================== *)

Definition error := string.
Definition bytes := list Byte.byte.

Inductive panic : Type :=
| PanicInvalidMetatile
    (* panic(fmt.Errorf("Invalid metatile coordinates")) *)
| PanicMakesliceCap
    (* runtime error: makeslice: cap out of range *)
| PanicAccessor (msg : string)
    (* GetCoord / GetMetaCoord called on the wrong request variant *)
| PanicCountMismatch (got expected : Z).
    (* metatile rendering result count mismatch *)

Inductive result (A : Type) : Type :=
| Ok (a : A)
| Panicked (p : panic).

Arguments Ok {A} a.
Arguments Panicked {A} p.

#[global] Instance result_ret : MRet result := λ A a, Ok a.
#[global] Instance result_bind : MBind result := λ A B f r,
  match r with
  | Ok a => f a
  | Panicked p => Panicked p
  end.

(** [for x := x0; ...; x++ { s = body x s }] run for [n] iterations. *)
Fixpoint for_loop {S : Type} (n : nat) (x : Z) (body : Z → S → S) (s : S) : S :=
  match n with
  | O => s
  | Datatypes.S n' => for_loop n' (add_int x 1) body (body x s)
  end.

(** [for x := 0; x < bound; x++]: the body runs [bound] times, and not at
    all when [bound] is negative. *)
Definition for_below {S : Type} (bound : Z) (body : Z → S → S) (s : S) : S :=
  for_loop (Z.to_nat bound) 0 body s.

(** [make([]T, 0, cap)] with [cap] of type [uint64]: the runtime receives the
    capacity as a signed 64-bit integer and panics when it is negative.  The
    allocator's own limit (a capacity whose byte size exceeds the address
    space) is memory exhaustion and is not modelled. *)
Definition makeslice (cap : Z) : result unit :=
  if int_of_uint64 cap <? 0 then Panicked PanicMakesliceCap else Ok tt.

(* ===================================================================== *)
(** * Coordinate model (TileCoord, MetaTileCoord) *)
(* ===================================================================== *)

Module TileCoord.

Record t : Type := mk {
  X : Z;
  Y : Z;
  Zoom : Z;
  Tms : bool;
  Layer : string
}.

Definition wf (c : t) : Prop :=
  is_uint64 (X c) ∧ is_uint64 (Y c) ∧ is_uint64 (Zoom c).

Definition setTMS (c : t) (tms : bool) : t :=
  if bool_decide (Tms c ≠ tms) then
    {| X := X c;
       Y := sub64 (sub64 (shl64 1 (Zoom c)) (Y c)) 1;
       Zoom := Zoom c;
       Tms := tms;
       Layer := Layer c |}
  else c.

End TileCoord.

Module MetaTileCoord.

Record t : Type := mk {
  MinX : Z;
  MinY : Z;
  MaxX : Z;
  MaxY : Z;
  Zoom : Z;
  Tms : bool;
  Layer : string
}.

Definition wf (c : t) : Prop :=
  is_uint64 (MinX c) ∧ is_uint64 (MinY c) ∧ is_uint64 (MaxX c) ∧
  is_uint64 (MaxY c) ∧ is_uint64 (Zoom c).

Definition setTMS (c : t) (tms : bool) : t :=
  if bool_decide (Tms c ≠ tms) then
    let minY := sub64 (sub64 (shl64 1 (Zoom c)) (MinY c)) 1 in
    let maxY := sub64 (sub64 (shl64 1 (Zoom c)) (MaxY c)) 1 in
    (* c.MinY, c.MaxY = c.MaxY, c.MinY *)
    {| MinX := MinX c;
       MinY := maxY;
       MaxX := MaxX c;
       MaxY := minY;
       Zoom := Zoom c;
       Tms := tms;
       Layer := Layer c |}
  else c.

Definition XSize (c : t) : result Z :=
  if MaxX c <? MinX c then Panicked PanicInvalidMetatile
  else Ok (add64 (sub64 (MaxX c) (MinX c)) 1).

Definition YSize (c : t) : result Z :=
  if MaxY c <? MinY c then Panicked PanicInvalidMetatile
  else Ok (add64 (sub64 (MaxY c) (MinY c)) 1).

Definition Count (c : t) : result Z :=
  xSize ← XSize c;
  ySize ← YSize c;
  mret (mul64 xSize ySize).

(** The element appended by the loop body at counters [x], [y]. *)
Definition tileAt (c : t) (x y : Z) : TileCoord.t :=
  {| TileCoord.X := add64 (MinX c) (uint64_of_int x);
     TileCoord.Y := add64 (MinY c) (uint64_of_int y);
     TileCoord.Zoom := Zoom c;
     TileCoord.Tms := Tms c;
     TileCoord.Layer := Layer c |}.

Definition TileCoords (c : t) : result (list TileCoord.t) :=
  xSize ← XSize c;
  ySize ← YSize c;
  _ ← makeslice (mul64 xSize ySize);
  mret (for_below (int_of_uint64 xSize) (λ x coords,
          for_below (int_of_uint64 ySize) (λ y coords,
            coords ++ [tileAt c x y]) coords) []).

(** The enumeration in the spec's words: outer loop over X from MinX to
    MaxX, inner loop over Y from MinY to MaxY, each element inheriting the
    metatile's Zoom, scheme flag and Layer. *)
Definition column_major (c : t) : list TileCoord.t :=
  x ← seqZ (MinX c) (MaxX c - MinX c + 1);
  y ← seqZ (MinY c) (MaxY c - MinY c + 1);
  [TileCoord.mk x y (Zoom c) (Tms c) (Layer c)].

End MetaTileCoord.

(* ===================================================================== *)
(** * Requests and results *)
(* ===================================================================== *)

(** A channel value is a reference; [chan] names it. *)
Definition chan := nat.

Module TileFetchResult.

Record t : Type := mk {
  Coord : TileCoord.t;
  BlobPNG : option bytes;
  Error : option error
}.

End TileFetchResult.

Module TileFetchRequest.

Record t : Type := mk {
  Coord : TileCoord.t;
  OutChan : chan
}.

End TileFetchRequest.

Module MetaTileFetchRequest.

Record t : Type := mk {
  Coord : MetaTileCoord.t;
  (* Will output multiple results *)
  OutChan : chan
}.

End MetaTileFetchRequest.

(** The interface [FetchRequest] and its two implementations. *)
Class FetchRequestI (R : Type) : Type := {
  IsMetaTile : R → bool;
  GetCoord : R → result TileCoord.t;
  GetLayer : R → string;
  GetMetaCoord : R → result MetaTileCoord.t;
  GetOutChan : R → chan
}.

#[global] Instance TileFetchRequest_FetchRequest : FetchRequestI TileFetchRequest.t := {|
  IsMetaTile r := false;
  GetCoord r := Ok (TileFetchRequest.Coord r);
  GetLayer r := TileCoord.Layer (TileFetchRequest.Coord r);
  GetMetaCoord r := Panicked (PanicAccessor "GetMetaCoord called on TileFetchRequest");
  GetOutChan r := TileFetchRequest.OutChan r
|}.

#[global] Instance MetaTileFetchRequest_FetchRequest : FetchRequestI MetaTileFetchRequest.t := {|
  IsMetaTile r := true;
  GetCoord r := Panicked (PanicAccessor "GetCoord called on MetaTileFetchRequest");
  GetLayer r := MetaTileCoord.Layer (MetaTileFetchRequest.Coord r);
  GetMetaCoord r := Ok (MetaTileFetchRequest.Coord r);
  GetOutChan r := MetaTileFetchRequest.OutChan r
|}.

(** A value of interface type [FetchRequest]: one of the implementations. *)
Inductive FetchRequest : Type :=
| TileRequest (r : TileFetchRequest.t)
| MetaTileRequest (r : MetaTileFetchRequest.t).

#[global] Instance FetchRequest_FetchRequest : FetchRequestI FetchRequest := {|
  IsMetaTile r := match r with TileRequest r => IsMetaTile r | MetaTileRequest r => IsMetaTile r end;
  GetCoord r := match r with TileRequest r => GetCoord r | MetaTileRequest r => GetCoord r end;
  GetLayer r := match r with TileRequest r => GetLayer r | MetaTileRequest r => GetLayer r end;
  GetMetaCoord r := match r with TileRequest r => GetMetaCoord r | MetaTileRequest r => GetMetaCoord r end;
  GetOutChan r := match r with TileRequest r => GetOutChan r | MetaTileRequest r => GetOutChan r end
|}.

(* ===================================================================== *)
(** * Code that sends on a reply channel *)
(* ===================================================================== *)

(** A computation holding the send end of one reply channel: it is given the
    values sent so far and returns its outcome with the values sent when it
    stopped.  A panic keeps what had been sent before it. *)
Definition Proc (A : Type) : Type :=
  list TileFetchResult.t → result A * list TileFetchResult.t.

#[global] Instance Proc_ret : MRet Proc := λ A a ch, (Ok a, ch).
#[global] Instance Proc_bind : MBind Proc := λ A B f m ch,
  match m ch with
  | (Ok a, ch') => f a ch'
  | (Panicked p, ch') => (Panicked p, ch')
  end.

(** [outchan <- r] *)
Definition send (r : TileFetchResult.t) : Proc unit :=
  λ ch, (Ok tt, ch ++ [r]).

Definition throw {A : Type} (p : panic) : Proc A :=
  λ ch, (Panicked p, ch).

(** A call of a function that may panic but does not send. *)
Definition call {A : Type} (r : result A) : Proc A :=
  λ ch, (r, ch).

Fixpoint for_loopM (n : nat) (x : Z) (body : Z → Proc unit) : Proc unit :=
  match n with
  | O => mret tt
  | Datatypes.S n' => body x ;; for_loopM n' (add_int x 1) body
  end.

Definition for_belowM (bound : Z) (body : Z → Proc unit) : Proc unit :=
  for_loopM (Z.to_nat bound) 0 body.

(** [for _, r := range results { body r }] *)
Fixpoint for_range {A : Type} (l : list A) (body : A → Proc unit) : Proc unit :=
  match l with
  | [] => mret tt
  | a :: l' => body a ;; for_range l' body
  end.

(* ===================================================================== *)
(** * TileRenderer *)
(* ===================================================================== *)

(** What a [TileRenderer] consumes from outside the package.
    - [renderTileInternal] is the method of that name: its body is
      floating-point projection arithmetic and calls into the mapnik engine
      ([Resize], [ZoomToMinMax], [SetBufferSize], [RenderToMemoryPng]); only
      its result, the PNG blob or the error, is used by the callers.
    - [png_Decode], [Bounds_Min], [is_SubImager], [SubImage], [png_Encode]
      are the [image] and [image/png] operations; [png_Encode] returns
      [buf.Bytes()] of the fresh buffer it was given, with its error. *)
Class Renderer : Type := {
  Image : Type;
  renderTileInternal :
    ∀ (zoom x y xTileSize yTileSize xMetaTile yMetaTile bufferSize : Z),
      option bytes * option error;
  png_Decode : option bytes → Image + error;
  Bounds_Min : Image → Z * Z;
  is_SubImager : Image → bool;
  SubImage : Image → (Z * Z) * (Z * Z) → Image;
  png_Encode : Image → option bytes * option error
}.

Section TileRenderer.
Context `{Renderer}.

Definition RenderTileZXY (zoom x y : Z) : option bytes * option error :=
  renderTileInternal zoom x y 256 256 1 1 128.

Definition RenderTile (c : TileCoord.t) : option bytes * option error :=
  let c := TileCoord.setTMS c false in
  RenderTileZXY (TileCoord.Zoom c) (TileCoord.X c) (TileCoord.Y c).

(** The body of the slicing loop at counters [x], [y]. *)
Definition sliceAt (c : MetaTileCoord.t) (img : Image) (bx by_ : Z) (x y : Z)
  : TileFetchResult.t :=
  let xTileSize := 256 in
  let yTileSize := 256 in
  let startX := mul_int x xTileSize in
  let startY := mul_int y yTileSize in
  let endX := mul_int (add_int x 1) xTileSize in
  let endY := mul_int (add_int y 1) yTileSize in
  let subimg := SubImage img ((add_int startX bx, add_int startY by_),
                              (add_int endX bx, add_int endY by_)) in
  let '(buf, err) := png_Encode subimg in
  {| TileFetchResult.Coord := MetaTileCoord.tileAt c x y;
     TileFetchResult.BlobPNG := buf;
     TileFetchResult.Error := err |}.

(** RenderMetaTile renders multiple tiles as a single tile, then slices them
    up.  A nil result slice is the empty list. *)
Definition RenderMetaTile (c : MetaTileCoord.t)
  : result (list TileFetchResult.t * option error) :=
  let c := MetaTileCoord.setTMS c false in
  if (MetaTileCoord.MaxX c <? MetaTileCoord.MinX c)
     || (MetaTileCoord.MaxY c <? MetaTileCoord.MinY c)
  then Ok ([], Some "Invalid metatile coordinates"%string)
  else
    xSize ← MetaTileCoord.XSize c;
    ySize ← MetaTileCoord.YSize c;
    let '(blob, err) :=
      renderTileInternal (MetaTileCoord.Zoom c) (MetaTileCoord.MinX c)
        (MetaTileCoord.MinY c) 256 256 xSize ySize 128 in
    match err with
    | Some e => Ok ([], Some e)
    | None =>
      _ ← makeslice (mul64 xSize ySize);
      if (xSize =? 1) && (ySize =? 1) then
        Ok ([ {| TileFetchResult.Coord :=
                   TileCoord.mk (MetaTileCoord.MinX c) (MetaTileCoord.MinY c)
                     (MetaTileCoord.Zoom c) (MetaTileCoord.Tms c)
                     (MetaTileCoord.Layer c);
                 TileFetchResult.BlobPNG := blob;
                 TileFetchResult.Error := None |} ], None)
      else
        match png_Decode blob with
        | inr e => Ok ([], Some e)
        | inl img =>
          let '(bx, by_) := Bounds_Min img in
          if negb (is_SubImager img) then
            Ok ([], Some "Decoded image type does not have SubImage method"%string)
          else
            (* cut the image into pieces *)
            Ok (for_below (int_of_uint64 xSize) (λ x results,
                  for_below (int_of_uint64 ySize) (λ y results,
                    results ++ [sliceAt c img bx by_ x y]) results) [],
                None)
        end
    end.

Definition processRequestTile (coord : TileCoord.t) : Proc unit :=
  let result := TileFetchResult.mk coord None None in
  let '(blob, err) := RenderTile coord in
  let result := TileFetchResult.mk (TileFetchResult.Coord result) blob
                  (TileFetchResult.Error result) in
  let result :=
    match err with
    | Some e => TileFetchResult.mk (TileFetchResult.Coord result) None (Some e)
    | None => result
    end in
  send result.

Definition processRequestMeta (coord : MetaTileCoord.t) : Proc unit :=
  resultCount ← call (MetaTileCoord.Count coord);
  '(results, err) ← call (RenderMetaTile coord);
  match err with
  | Some e =>
    (* global error, replicate it resultCount times, since receiver expects
       resultCount results *)
    xSize ← call (MetaTileCoord.XSize coord);
    ySize ← call (MetaTileCoord.YSize coord);
    for_belowM (int_of_uint64 xSize) (λ x,
      for_belowM (int_of_uint64 ySize) (λ y,
        send {| TileFetchResult.Coord := MetaTileCoord.tileAt coord x y;
                TileFetchResult.BlobPNG := None;
                TileFetchResult.Error := Some e |}))
  | None =>
    if bool_decide (Z.of_nat (length results) ≠ int_of_uint64 resultCount) then
      throw (PanicCountMismatch (Z.of_nat (length results)) resultCount)
    else
      for_range results send
  end.

(** [ProcessRequest] runs with the send end of [request.GetOutChan()]. *)
Definition ProcessRequest (request : FetchRequest) : Proc unit :=
  if IsMetaTile request then
    coord ← call (GetMetaCoord request);
    processRequestMeta coord
  else
    coord ← call (GetCoord request);
    processRequestTile coord.

End TileRenderer.

(* ===================================================================== *)
(** * LayerMultiplex *)
(* ===================================================================== *)

(** The part of the running program the multiplexer and its workers act on:
    the requests sent on each render queue and not yet taken by a worker,
    the values sent on each reply channel, and the log. *)
Record Runtime : Type := {
  queues : gmap chan (list FetchRequest);
  replies : gmap chan (list TileFetchResult.t);
  logged : list string
}.

(** [c <- r] on a render queue.  The queues are unbuffered: the send returns
    when a worker takes the request.  It is recorded here as sent, and
    [Listen_step] is the worker taking it. *)
Definition enqueue (c : chan) (r : FetchRequest) (w : Runtime) : Runtime :=
  {| queues := <[c := default [] (queues w !! c) ++ [r]]> (queues w);
     replies := replies w;
     logged := logged w |}.

Definition log_Println (msg : string) (w : Runtime) : Runtime :=
  {| queues := queues w;
     replies := replies w;
     logged := logged w ++ [msg] |}.

Record LayerMultiplex : Type := {
  layerChans : gmap string chan;
  numRenderers : Z
}.

Definition NewLayerMultiplex (GOMAXPROCS : Z) (numRenderers : Z) : LayerMultiplex :=
  let numRenderers := if numRenderers =? 0 then GOMAXPROCS else numRenderers in
  {| layerChans := ∅; numRenderers := numRenderers |}.

Definition AddSource (l : LayerMultiplex) (name : string) (fetchChan : chan)
  : LayerMultiplex :=
  {| layerChans := <[name := fetchChan]> (layerChans l);
     numRenderers := numRenderers l |}.

Definition SubmitRequest (l : LayerMultiplex) (r : FetchRequest) (w : Runtime)
  : bool * Runtime :=
  match layerChans l !! GetLayer r with
  | Some c => (true, enqueue c r w)
  | None => (false, log_Println ("No such layer " +:+ GetLayer r) w)
  end.

(** One turn of the loop of [Listen] for a worker reading queue [c]: take
    the oldest request and process it with the send end of its reply
    channel.  [None]: the queue is empty and the worker stays blocked. *)
Definition Listen_step `{Renderer} (c : chan) (w : Runtime)
  : option (result unit * Runtime) :=
  match queues w !! c with
  | Some (request :: rest) =>
    let out := GetOutChan request in
    let '(r, sent) := ProcessRequest request (default [] (replies w !! out)) in
    Some (r, {| queues := <[c := rest]> (queues w);
                replies := <[out := sent]> (replies w);
                logged := logged w |})
  | _ => None
  end.

(** The runtimes reachable while workers, each with a renderer of its own,
    keep taking requests.  A panic ends the program: no step follows it. *)
Inductive worker_steps : Runtime → Runtime → Prop :=
| worker_steps_refl w : worker_steps w w
| worker_steps_next (R : Renderer) c w w1 w2 :
    Listen_step c w = Some (Ok tt, w1) →
    worker_steps w1 w2 →
    worker_steps w w2
| worker_steps_panic (R : Renderer) c w w1 p :
    Listen_step c w = Some (Panicked p, w1) →
    worker_steps w w1.

(** A request with reply channel [ch] is waiting in some queue. *)
Definition awaits_on (ch : chan) (w : Runtime) : Prop :=
  ∃ c q r, queues w !! c = Some q ∧ r ∈ q ∧ GetOutChan r = ch.

(* ===================================================================== *)
(** * TileDb *)
(* ===================================================================== *)

(** The SQL store behind [m.db], as the schema of [NewTileDb] declares it.
    - [layers]: table [layers(layer_name text PRIMARY KEY)]; rows are never
      deleted, so the rowid of the i-th row is [i + 1];
    - [layered_tiles]: primary key (layer_id, zoom_level, tile_column,
      tile_row), value the checksum;
    - [tile_blobs]: table [tile_blobs(checksum text, tile_data blob)]; it
      declares no key, so it is a plain sequence of rows and
      [REPLACE INTO tile_blobs] appends;
    - [fault]: when set, every statement fails with this error (a closed
      handle, an I/O error).
    The [metadata] table and the [tiles] view are not read or written by
    the code below.  Integer arguments are stored as they are given. *)
Record Db : Type := {
  layers : list string;
  layered_tiles : gmap (Z * Z * Z * Z) string;
  tile_blobs : list (string * option bytes);
  fault : option error
}.

(** The outcome of [QueryRow(...).Scan(...)]. *)
Inductive scan (A : Type) : Type :=
| Row (a : A)
| ErrNoRows
| ScanError (e : error).

Arguments Row {A} a.
Arguments ErrNoRows {A}.
Arguments ScanError {A} e.

(** [SELECT rowid FROM layers WHERE layer_name=?] *)
Definition layer_rowid (d : Db) (name : string) : option Z :=
  (λ p, Z.of_nat (S p.1)) <$> list_find (λ n, n = name) (layers d).

(** [SELECT rowid, layer_name FROM layers] *)
Definition select_layers (d : Db) : list (Z * string) :=
  imap (λ i s, (Z.of_nat (S i), s)) (layers d).

(** [INSERT OR IGNORE INTO layers(layer_name) VALUES(?)] *)
Definition insert_or_ignore_layer (d : Db) (name : string) : Db + error :=
  match fault d with
  | Some e => inr e
  | None =>
    inl (if bool_decide (name ∈ layers d) then d
         else {| layers := layers d ++ [name];
                 layered_tiles := layered_tiles d;
                 tile_blobs := tile_blobs d;
                 fault := fault d |})
  end.

(** [SELECT 1 FROM tile_blobs WHERE checksum=?] *)
Definition select_blob_exists (d : Db) (s : string) : scan Z :=
  match fault d with
  | Some e => ScanError e
  | None =>
    match filter (λ row, row.1 = s) (tile_blobs d) with
    | [] => ErrNoRows
    | _ :: _ => Row 1
    end
  end.

(** [REPLACE INTO tile_blobs VALUES (?,?) , ...] with the given rows *)
Definition replace_into_tile_blobs (d : Db) (rows : list (string * option bytes))
  : Db + error :=
  match fault d with
  | Some e => inr e
  | None =>
    inl {| layers := layers d;
           layered_tiles := layered_tiles d;
           tile_blobs := tile_blobs d ++ rows;
           fault := fault d |}
  end.

(** [REPLACE INTO layered_tiles VALUES (?,?,?,?,?) , ...]: the rows are
    applied in order, a later row replacing an earlier one with its key. *)
Definition replace_into_layered_tiles (d : Db)
    (rows : list ((Z * Z * Z * Z) * string)) : Db + error :=
  match fault d with
  | Some e => inr e
  | None =>
    inl {| layers := layers d;
           layered_tiles := foldl (λ t row, <[row.1 := row.2]> t) (layered_tiles d) rows;
           tile_blobs := tile_blobs d;
           fault := fault d |}
  end.

(** The query of [fetch]:
    [SELECT tile_data FROM tile_blobs WHERE checksum=(SELECT checksum FROM
     layered_tiles WHERE zoom_level=? AND tile_column=? AND tile_row=? AND
     layer_id=(SELECT rowid FROM layers WHERE layer_name=?))].
    A scalar subquery without rows is NULL, and no comparison with NULL
    holds. *)
Definition select_tile_data (d : Db) (zoom x y : Z) (l : string)
  : scan (option bytes) :=
  match fault d with
  | Some e => ScanError e
  | None =>
    match layer_rowid d l with
    | None => ErrNoRows
    | Some layer_id =>
      match layered_tiles d !! (layer_id, zoom, x, y) with
      | None => ErrNoRows
      | Some checksum =>
        match filter (λ row, row.1 = checksum) (tile_blobs d) with
        | [] => ErrNoRows
        | row :: _ => Row row.2
        end
      end
    end
  end.

(** [fmt.Sprintf("%x", md5.Sum(b))]: the hexadecimal MD5 digest. *)
Class Md5 : Type := md5_hex : bytes → string.

Record TileDb : Type := {
  db : Db;
  layerIds : gmap string Z;
  dblog : list string
}.

Definition tiledb_log (msg : string) (m : TileDb) : TileDb :=
  {| db := db m; layerIds := layerIds m; dblog := dblog m ++ [msg] |}.

Definition with_db (m : TileDb) (d : Db) : TileDb :=
  {| db := d; layerIds := layerIds m; dblog := dblog m |}.

(** [log.Fatal]: the process exits; [None]. *)
Definition readLayers (m : TileDb) : option TileDb :=
  match fault (db m) with
  | Some e => None
  | None =>
    Some {| db := db m;
            layerIds := foldl (λ ids row, <[row.2 := row.1]> ids) ∅ (select_layers (db m));
            dblog := dblog m |}
  end.

Definition ensureLayer (m : TileDb) (layer : string) : option TileDb :=
  match layerIds m !! layer with
  | Some _ => Some m
  | None =>
    let m :=
      match insert_or_ignore_layer (db m) layer with
      | inl d => with_db m d
      | inr e => tiledb_log e m
      end in
    readLayers m
  end.

(** [m.layerIds[l]]: the zero value when the key is missing. *)
Definition layerId (m : TileDb) (l : string) : Z := default 0 (layerIds m !! l).

Definition default_layer (l : string) : string :=
  if bool_decide (l = ""%string) then "default"%string else l.

Section TileDb.
Context `{Md5}.

Definition checksum (blob : option bytes) : string := md5_hex (default [] blob).

Definition insert (m : TileDb) (i : TileFetchResult.t) : option TileDb :=
  let coord := TileCoord.setTMS (TileFetchResult.Coord i) true in
  let '(x, y, z, l) := (TileCoord.X coord, TileCoord.Y coord,
                        TileCoord.Zoom coord, TileCoord.Layer coord) in
  let l := default_layer l in
  let s := checksum (TileFetchResult.BlobPNG i) in
  let tile (m : TileDb) : option TileDb :=
    m ← ensureLayer m l;
    match replace_into_layered_tiles (db m) [((layerId m l, z, x, y), s)] with
    | inl d => Some (with_db m d)
    | inr e => Some (tiledb_log e m)
    end in
  match select_blob_exists (db m) s with
  | ErrNoRows =>
    match replace_into_tile_blobs (db m) [(s, TileFetchResult.BlobPNG i)] with
    | inr e => Some (tiledb_log ("error during insert " +:+ e) m)
    | inl d => tile (with_db m d)
    end
  | ScanError e => Some (tiledb_log ("error during test " +:+ e) m)
  | Row _ => (* Reusing blob *) tile m
  end.

(** The result [fetch] sends on [r.OutChan]. *)
Definition fetch_result (m : TileDb) (r : TileFetchRequest.t) : TileFetchResult.t :=
  let coord := TileCoord.setTMS (TileFetchRequest.Coord r) true in
  let '(zoom, x, y, l) := (TileCoord.Zoom coord, TileCoord.X coord,
                           TileCoord.Y coord, TileCoord.Layer coord) in
  let l := default_layer l in
  let result := TileFetchResult.mk coord None None in
  match select_tile_data (db m) zoom x y l with
  | ErrNoRows =>
    TileFetchResult.mk (TileFetchResult.Coord result) None (TileFetchResult.Error result)
  | ScanError e =>
    TileFetchResult.mk (TileFetchResult.Coord result) (TileFetchResult.BlobPNG result) (Some e)
  | Row blob =>
    TileFetchResult.mk (TileFetchResult.Coord result) blob (TileFetchResult.Error result)
  end.

Definition fetch (m : TileDb) (r : TileFetchRequest.t) : Proc unit :=
  send (fetch_result m r).

Record batchBlob : Type := { data : option bytes; blob_checksum : string }.

Record batchTile : Type := { layerID : Z; z : Z; x : Z; y : Z; s : string }.

(** What the goroutines of [BatchInsert] share: the cache, the caller's
    slice (they hold pointers into it), and the two slices they append to. *)
Record batch : Type := {
  b_m : TileDb;
  b_inserts : list TileFetchResult.t;
  b_tiles : list batchTile;
  b_blobs : list batchBlob
}.

(** The goroutine started for index [idx]. *)
Definition BatchInsert_go (b : batch) (idx : nat) : option batch :=
  match b_inserts b !! idx with
  | None => Some b
  | Some i =>
    let i := TileFetchResult.mk (TileCoord.setTMS (TileFetchResult.Coord i) true)
               (TileFetchResult.BlobPNG i) (TileFetchResult.Error i) in
    let inserts := <[idx := i]> (b_inserts b) in
    let coord := TileFetchResult.Coord i in
    let l := default_layer (TileCoord.Layer coord) in
    m ← ensureLayer (b_m b) l;
    let s := checksum (TileFetchResult.BlobPNG i) in
    let tiles := b_tiles b ++
      [ {| layerID := layerId m l; z := TileCoord.Zoom coord;
           x := TileCoord.X coord; y := TileCoord.Y coord; s := s |} ] in
    match select_blob_exists (db m) s with
    | ErrNoRows =>
      Some {| b_m := m; b_inserts := inserts; b_tiles := tiles;
              b_blobs := b_blobs b ++
                [ {| data := TileFetchResult.BlobPNG i; blob_checksum := s |} ] |}
    | ScanError e =>
      Some {| b_m := tiledb_log ("error during test " +:+ e) m;
              b_inserts := inserts; b_tiles := tiles; b_blobs := b_blobs b |}
    | Row _ =>
      Some {| b_m := m; b_inserts := inserts; b_tiles := tiles; b_blobs := b_blobs b |}
    end
  end.

(** The goroutines run to completion one after the other in the order
    [sched] (a permutation of the indices); the source lets their steps
    interleave further, which the existence checks do not observe:
    [tile_blobs] is not written before [wg.Wait()] returns. *)
Fixpoint BatchInsert_gos (b : batch) (sched : list nat) : option batch :=
  match sched with
  | [] => Some b
  | idx :: sched' => b' ← BatchInsert_go b idx; BatchInsert_gos b' sched'
  end.

(** Returns the cache and the caller's slice as the call leaves them. *)
Definition BatchInsert (sched : list nat) (m : TileDb) (inserts : list TileFetchResult.t)
  : option (TileDb * list TileFetchResult.t) :=
  b ← BatchInsert_gos {| b_m := m; b_inserts := inserts; b_tiles := []; b_blobs := [] |} sched;
  let m := b_m b in
  let after_blobs : TileDb + TileDb :=
    if bool_decide (0 < length (b_blobs b))%nat then
      match replace_into_tile_blobs (db m)
              ((λ blob, (blob_checksum blob, data blob)) <$> b_blobs b) with
      | inr e => inr (tiledb_log ("error inserting blobs " +:+ e) m)
      | inl d => inl (with_db m d)
      end
    else inl m in
  match after_blobs with
  | inr m => Some (m, b_inserts b)
  | inl m =>
    match b_tiles b with
    | [] =>
      (* "REPLACE INTO layered_tiles VALUES;" does not parse *)
      Some (tiledb_log "error during tile statement preparation" m, b_inserts b)
    | _ :: _ =>
      match replace_into_layered_tiles (db m)
              ((λ tile, ((layerID tile, z tile, x tile, y tile), s tile)) <$> b_tiles b) with
      | inr e => Some (tiledb_log ("error inserting tiles " +:+ e) m, b_inserts b)
      | inl d => Some (with_db m d, b_inserts b)
      end
    end
  end.

End TileDb.

(** The store [NewTileDb] sets up on a new file. *)
Definition empty_Db : Db :=
  {| layers := ["default"%string]; layered_tiles := ∅; tile_blobs := []; fault := None |}.

Definition NewTileDb : option TileDb :=
  readLayers {| db := empty_Db; layerIds := ∅; dblog := [] |}.

(* ===================================================================== *)
(** * TileServer *)
(* ===================================================================== *)

Record TileServer : Type := {
  (** [t.m != nil]: a cache is configured *)
  has_cache : bool;
  TmsSchema : bool
}.

(** What [ServeTileRequest] does to its surroundings, in order. *)
Inductive action : Type :=
| CacheRequest (tr : TileFetchRequest.t)     (* t.m.RequestQueue() <- tr *)
| Submit (tr : TileFetchRequest.t)           (* t.lmp.SubmitRequest(tr) *)
| NotFound                                   (* http.NotFound(w, r) *)
| SetHeader (key value : string)             (* w.Header().Set(key, value) *)
| Write (body : option bytes)                (* w.Write(result.BlobPNG) *)
| LogPrintln (e : error)
| CacheInsert (result : TileFetchResult.t).  (* t.m.InsertQueue() <- result *)

Inductive outcome : Type :=
| Returned
| BlockedOnReceive.   (* [<-ch] with nothing ever sent on [ch] *)

(** [ServeTileRequest] with the fresh reply channel [ch]; [incoming] are the
    values the cache and the workers send on [ch], in order, and [write_err]
    is what [w.Write] returns. *)
Definition ServeTileRequest (t : TileServer) (tc : TileCoord.t) (ch : chan)
    (incoming : list TileFetchResult.t) (write_err : option error)
  : outcome * list action :=
  let tr := TileFetchRequest.mk tc ch in
  let respond (acts : list action) (result : TileFetchResult.t) (needsInsert : bool) :=
    let acts := acts ++ [SetHeader "Content-Type" "image/png";
                         Write (TileFetchResult.BlobPNG result)] in
    let acts := match write_err with
                | Some e => acts ++ [LogPrintln e]
                | None => acts
                end in
    if has_cache t && needsInsert then
      (* insert newly rendered tile into cache db *)
      (Returned, acts ++ [CacheInsert result])
    else (Returned, acts) in
  let render (acts : list action) (incoming : list TileFetchResult.t) :=
    (* Tile was not provided by DB, so submit the tile request to the renderer *)
    let acts := acts ++ [Submit tr] in
    match incoming with
    | [] => (BlockedOnReceive, acts)
    | result :: _ =>
      match TileFetchResult.BlobPNG result with
      | None =>
        (* The tile could not be rendered, now we need to bail out. *)
        (Returned, acts ++ [NotFound])
      | Some _ => respond acts result true
      end
    end in
  if has_cache t then
    let acts := [CacheRequest tr] in
    match incoming with
    | [] => (BlockedOnReceive, acts)
    | result :: incoming =>
      match TileFetchResult.BlobPNG result with
      | None => render acts incoming
      | Some _ => respond acts result false
      end
    end
  else
    render [] incoming.

(* ===================================================================== *)
(** * Notions used in the statements *)
(* ===================================================================== *)

(** The exclusivity of a [TileFetchResult] in the spec's words: bytes and an
    error are never both present. *)
Definition exclusive (r : TileFetchResult.t) : Prop :=
  ¬ (is_Some (TileFetchResult.BlobPNG r) ∧ is_Some (TileFetchResult.Error r)).

(** The blob table once [insert] has checked for the checksum [s] and added
    the row when no row had it. *)
Definition blobs_after (d : Db) (s : string) (blob : option bytes)
  : list (string * option bytes) :=
  match filter (λ row, row.1 = s) (tile_blobs d) with
  | [] => tile_blobs d ++ [(s, blob)]
  | _ :: _ => tile_blobs d
  end.

(** The in-memory registry agrees with the [layers] table, whose names are
    a primary key. *)
Definition registry_ok (m : TileDb) : Prop :=
  NoDup (layers (db m)) ∧
  ∀ l id, layerIds m !! l = Some id → layer_rowid (db m) l = Some id.

(* ===================================================================== *)
(** * Stand-ins and concrete inputs *)
(* ===================================================================== *)

(** Stand-ins for the mapnik engine, the PNG codec and MD5. *)
Module Mock.

(** The engine fails on every call. *)
Definition failing : Renderer := {|
  Image := unit;
  renderTileInternal _ _ _ _ _ _ _ _ := (None, Some "render failed"%string);
  png_Decode _ := inl tt;
  Bounds_Min _ := (0, 0);
  is_SubImager _ := true;
  SubImage img _ := img;
  png_Encode _ := (Some [Byte.x89], None)
|}.

(** The engine and the codec succeed on every call. *)
Definition blank : Renderer := {|
  Image := unit;
  renderTileInternal _ _ _ _ _ _ _ _ := (Some [Byte.x89], None);
  png_Decode _ := inl tt;
  Bounds_Min _ := (0, 0);
  is_SubImager _ := true;
  SubImage img _ := img;
  png_Encode _ := (Some [Byte.x89], None)
|}.

(** The encoder reports an error after it has written to the buffer. *)
Definition truncating : Renderer := {|
  Image := unit;
  renderTileInternal _ _ _ _ _ _ _ _ := (Some [Byte.x89], None);
  png_Decode _ := inl tt;
  Bounds_Min _ := (0, 0);
  is_SubImager _ := true;
  SubImage img _ := img;
  png_Encode _ := (Some [Byte.x89], Some "short write"%string)
|}.

(** A stand-in digest: the bytes themselves, read as a string. *)
Definition digest : Md5 := String.string_of_list_byte.

End Mock.

Module Inputs.

(** The 2×2 block of the spec's scenario. *)
Definition block2x2 : MetaTileCoord.t :=
  MetaTileCoord.mk 1 1 2 2 3 false "default".

(** One column, two rows. *)
Definition block1x2 : MetaTileCoord.t :=
  MetaTileCoord.mk 0 0 0 1 1 false "default".

(** A block 2^63 columns wide and one row high. *)
Definition wide_block : MetaTileCoord.t :=
  MetaTileCoord.mk 0 0 (2 ^ 63 - 1) 0 0 false "default".

(** A block whose column count 2^63 + 1 does not fit an [int]; with its two
    rows the product wraps to 2. *)
Definition overflowing_block : MetaTileCoord.t :=
  MetaTileCoord.mk 0 0 (2 ^ 63) 1 0 false "default".

(** A block of rows 0..1 at zoom 0, where only row 0 exists. *)
Definition straddling_block : MetaTileCoord.t :=
  MetaTileCoord.mk 0 0 0 1 0 false "default".

(** A multiplexer with one queue, channel 7, registered for "roads". *)
Definition roads_only : LayerMultiplex :=
  AddSource (NewLayerMultiplex 4 0) "roads" 7%nat.

(** No request queued, nothing sent. *)
Definition idle : Runtime := {| queues := ∅; replies := ∅; logged := [] |}.

Definition roads_request : FetchRequest :=
  TileRequest (TileFetchRequest.mk (TileCoord.mk 1 2 3 false "roads") 1%nat).

Definition rivers_request : FetchRequest :=
  TileRequest (TileFetchRequest.mk (TileCoord.mk 1 2 3 false "rivers") 2%nat).

(** The cache [NewTileDb] returns for a new file. *)
Definition fresh_cache : TileDb :=
  {| db := empty_Db; layerIds := {[ "default"%string := 1 ]}; dblog := [] |}.

(** A cache whose only tile record names a checksum without a blob row. *)
Definition dangling_cache : TileDb :=
  {| db := {| layers := ["default"%string];
              layered_tiles := {[ (1, 0, 0, 0) := "0123abcd"%string ]};
              tile_blobs := [];
              fault := None |};
     layerIds := {[ "default"%string := 1 ]};
     dblog := [] |}.

(** The request for the tile of [dangling_cache], in the TMS scheme. *)
Definition dangling_request : TileFetchRequest.t :=
  TileFetchRequest.mk (TileCoord.mk 0 0 0 true "") 5%nat.

(** A request in the XYZ scheme: column 0, row 0 at zoom 1. *)
Definition xyz_request : TileFetchRequest.t :=
  TileFetchRequest.mk (TileCoord.mk 0 0 1 false "") 5%nat.

(** Two rendered tiles with the same bytes at different coordinates. *)
Definition twin_a : TileFetchResult.t :=
  TileFetchResult.mk (TileCoord.mk 0 0 1 false "") (Some [Byte.x89; Byte.x50]) None.
Definition twin_b : TileFetchResult.t :=
  TileFetchResult.mk (TileCoord.mk 1 0 1 false "") (Some [Byte.x89; Byte.x50]) None.

(** A server with a cache, a tile, and results the cache and a worker may
    send for it. *)
Definition caching_server : TileServer := {| has_cache := true; TmsSchema := false |}.

Definition tile : TileCoord.t := TileCoord.mk 0 0 1 false "default".

Definition hit : TileFetchResult.t :=
  TileFetchResult.mk (TileCoord.mk 0 1 1 true "default") (Some [Byte.x89]) None.

Definition miss : TileFetchResult.t :=
  TileFetchResult.mk (TileCoord.mk 0 1 1 true "default") None None.

Definition rendered : TileFetchResult.t :=
  TileFetchResult.mk tile (Some [Byte.x89; Byte.x50]) None.

Definition failed : TileFetchResult.t :=
  TileFetchResult.mk tile None (Some "render failed"%string).

End Inputs.

(* ===================================================================== *)
(** * File names and request paths *)
(* ===================================================================== *)

(** [fmt.Sprintf("%d", n)] for an unsigned [n]: the decimal digits, without
    leading zeros, "0" for zero. *)
Definition fmt_d (n : Z) : string :=
  DecimalString.NilEmpty.string_of_uint (N.to_uint (Z.to_N n)).

Definition OSMFilename (c : TileCoord.t) : string :=
  fmt_d (TileCoord.Zoom c) +:+ "/" +:+ fmt_d (TileCoord.X c) +:+ "/" +:+
  fmt_d (TileCoord.Y c) +:+ ".png".

(** [strconv.ParseUint(s, 10, 64)] with its error dropped, as [ServeHTTP]
    calls it on a string of digits: the value, or the largest [uint64] when
    the value does not fit; 0 when [s] is not a string of digits. *)
Definition ParseUint (s : string) : Z :=
  match DecimalString.NilEmpty.uint_of_string s with
  | Some d =>
    let n := Z.of_N (N.of_uint d) in
    if n <? 2 ^ 64 then n else 2 ^ 64 - 1
  | None => 0
  end.

(** The character classes [[0-9]] and [[A-Za-z0-9]]. *)
Definition is_digit (a : Ascii.ascii) : bool :=
  let n := Ascii.nat_of_ascii a in (48 <=? n)%nat && (n <=? 57)%nat.

Definition is_alnum (a : Ascii.ascii) : bool :=
  let n := Ascii.nat_of_ascii a in
  is_digit a || ((65 <=? n)%nat && (n <=? 90)%nat)
             || ((97 <=? n)%nat && (n <=? 122)%nat).

(** The longest prefix of [s] in the class [p], and the rest. *)
Fixpoint span (p : Ascii.ascii → bool) (s : string) : string * string :=
  match s with
  | EmptyString => (EmptyString, EmptyString)
  | String a s' =>
    if p a then let '(run, rest) := span p s' in (String a run, rest)
    else (EmptyString, s)
  end.

(** [s] without its prefix [pre], when it has it. *)
Fixpoint strip_prefix (pre s : string) : option string :=
  match pre, s with
  | EmptyString, _ => Some s
  | String a pre', String b s' =>
    if bool_decide (a = b) then strip_prefix pre' s' else None
  | String _ _, EmptyString => None
  end.

(** A class repeated once or more, as a capture group. *)
Definition group (p : Ascii.ascii → bool) (s : string) : option (string * string) :=
  let '(run, rest) := span p s in
  if bool_decide (run = EmptyString) then None else Some (run, rest).

(** [pathRegex], [/([A-Za-z0-9]+)/([0-9]+)/([0-9]+)/([0-9]+)\.png], matched
    at the start of [s].  Every group is followed by a character outside its
    class, so the only run that can match is the longest one: the greedy
    match needs no backtracking. *)
Definition pathRegex_here (s : string) : option (string * string * string * string) :=
  s ← strip_prefix "/" s;
  '(l, s) ← group is_alnum s;
  s ← strip_prefix "/" s;
  '(z, s) ← group is_digit s;
  s ← strip_prefix "/" s;
  '(x, s) ← group is_digit s;
  s ← strip_prefix "/" s;
  '(y, s) ← group is_digit s;
  _ ← strip_prefix ".png" s;
  Some (l, z, x, y).

(** [pathRegex.FindStringSubmatch(s)]: the groups of the leftmost match,
    [None] for the nil slice. *)
Fixpoint FindStringSubmatch (s : string) : option (string * string * string * string) :=
  match pathRegex_here s with
  | Some groups => Some groups
  | None =>
    match s with
    | EmptyString => None
    | String _ s' => FindStringSubmatch s'
    end
  end.

(** [ServeHTTP] for the request path [r.URL.Path]; the reply channel and
    what arrives on it are those of [ServeTileRequest]. *)
Definition ServeHTTP (t : TileServer) (path : string) (ch : chan)
    (incoming : list TileFetchResult.t) (write_err : option error)
  : outcome * list action :=
  match FindStringSubmatch path with
  | None => (Returned, [NotFound])
  | Some (l, z, x, y) =>
    let z := ParseUint z in
    let x := ParseUint x in
    let y := ParseUint y in
    ServeTileRequest t (TileCoord.mk x y z (TmsSchema t) l) ch incoming write_err
  end.

(* ===================================================================== *)
(** * Building a multiplexer *)
(* ===================================================================== *)

(** [CreateRenderer]: a new queue and [numRenderers] workers listening on
    it (none when the number is negative).  Returns the queue, the number
    of workers started and the runtime with the queue in it. *)
Definition CreateRenderer (l : LayerMultiplex) (stylesheet : string) (w : Runtime)
  : chan * nat * Runtime :=
  let c := fresh (dom (queues w)) in
  (c, Z.to_nat (numRenderers l),
   {| queues := <[c := []]> (queues w);
      replies := replies w;
      logged := logged w |}).

Definition AddRenderer (l : LayerMultiplex) (name stylesheet : string) (w : Runtime)
  : LayerMultiplex * Runtime :=
  let '(c, _, w) := CreateRenderer l stylesheet w in
  (AddSource l name c, w).

Definition DefaultRenderMultiplex (GOMAXPROCS : Z) (defaultStylesheet : string)
    (numRenderers : Z) (w : Runtime) : LayerMultiplex * Runtime :=
  let l := NewLayerMultiplex GOMAXPROCS numRenderers in
  let '(renderer, _, w) := CreateRenderer l defaultStylesheet w in
  let l := AddSource l "" renderer in
  let l := AddSource l "default" renderer in
  (l, w).

(* ===================================================================== *)
(** * Further notions used in the statements *)
(* ===================================================================== *)

(** Every character of [s] is in the class [p]. *)
Fixpoint all_in (p : Ascii.ascii → bool) (s : string) : bool :=
  match s with
  | EmptyString => true
  | String a s' => p a && all_in p s'
  end.

(** [s] is empty or starts outside the class [p]. *)
Definition stops (p : Ascii.ascii → bool) (s : string) : Prop :=
  match s with
  | EmptyString => True
  | String a _ => p a = false
  end.

(** Every tile record names a checksum that has a blob row. *)
Definition blobs_cover (d : Db) : Prop :=
  ∀ key s, layered_tiles d !! key = Some s →
           ∃ row, row ∈ tile_blobs d ∧ row.1 = s.

(** A result as [BatchInsert] leaves it in the caller's slice: its
    coordinate converted to the TMS scheme. *)
Definition converted (i : TileFetchResult.t) : TileFetchResult.t :=
  TileFetchResult.mk (TileCoord.setTMS (TileFetchResult.Coord i) true)
    (TileFetchResult.BlobPNG i) (TileFetchResult.Error i).

(** Further concrete inputs. *)
Module Samples.

(** Two requests waiting on queue 7 of [Inputs.roads_only]. *)
Definition busy : Runtime :=
  {| queues := {[ 7%nat := [Inputs.roads_request; Inputs.roads_request] ]};
     replies := ∅;
     logged := [] |}.

Definition another_roads_request : FetchRequest :=
  TileRequest (TileFetchRequest.mk (TileCoord.mk 4 5 3 false "roads") 3%nat).

(** A block with MaxX < MinX. *)
Definition inverted_block : MetaTileCoord.t :=
  MetaTileCoord.mk 2 0 1 0 3 false "default".

(** The block of the single tile (5, 6) at zoom 3, in the TMS scheme. *)
Definition single_tile_block : MetaTileCoord.t :=
  MetaTileCoord.mk 5 6 5 6 3 true "default".

(** A tile in the TMS scheme. *)
Definition tms_tile : TileCoord.t := TileCoord.mk 5 6 3 true "default".

End Samples.

(* ===================================================================== *)
(** * Notions for the cache and the server *)
(* ===================================================================== *)

(** Every tile record belongs to a row of the [layers] table. *)
Definition records_in_layers (d : Db) : Prop :=
  ∀ id zoom x y s, layered_tiles d !! (id, zoom, x, y) = Some s →
                   ∃ l, layer_rowid d l = Some id.

(** The store as the operations of the cache keep it: the registry agrees
    with the [layers] table, every tile record belongs to a layer, and every
    tile record names a checksum that has a blob row. *)
Definition consistent (m : TileDb) : Prop :=
  registry_ok m ∧ records_in_layers (db m) ∧ blobs_cover (db m).

(** The layer and the position a cache operation on [c] addresses. *)
Definition cache_key (c : TileCoord.t) : string * Z * Z * Z :=
  let c := TileCoord.setTMS c true in
  (default_layer (TileCoord.Layer c), TileCoord.Zoom c, TileCoord.X c, TileCoord.Y c).

(** The actions that answer the HTTP request. *)
Definition is_response (a : action) : bool :=
  match a with
  | NotFound | Write _ => true
  | _ => false
  end.

(* ===================================================================== *)
(** * Properties *)
(* ===================================================================== *)

(** ** Go integers *)

Lemma wrap64_small z : is_uint64 z → wrap64 z = z.
Proof. intros Hz. unfold wrap64. apply Z.mod_small. exact Hz. Qed.

Lemma wrap64_range z : is_uint64 (wrap64 z).
Proof. unfold wrap64, is_uint64. apply Z.mod_pos_bound. lia. Qed.

Lemma int_of_uint64_small z : 0 ≤ z < 2 ^ 63 → int_of_uint64 z = z.
Proof.
  intros Hz. unfold int_of_uint64.
  destruct (Z.ltb_spec z (2 ^ 63)); [reflexivity | lia].
Qed.

Lemma int_of_uint64_big z : 2 ^ 63 ≤ z < 2 ^ 64 → int_of_uint64 z = z - 2 ^ 64.
Proof.
  intros Hz. unfold int_of_uint64.
  destruct (Z.ltb_spec z (2 ^ 63)); [lia | reflexivity].
Qed.

Lemma add_int_small a b : 0 ≤ a + b < 2 ^ 63 → add_int a b = a + b.
Proof.
  intros Hab. unfold add_int, wrap_int.
  rewrite wrap64_small by (unfold is_uint64; lia).
  apply int_of_uint64_small, Hab.
Qed.

(** Name the remainder [a mod 2^64] and keep its bounds and its defining
    equation, so that [lia] can finish. *)
Ltac name_wrap a r :=
  let B := fresh "B" in
  let E := fresh "E" in
  pose proof (Z.mod_pos_bound a (2 ^ 64) eq_refl) as B;
  pose proof (Z.mod_eq a (2 ^ 64) ltac:(lia)) as E;
  set (r := a `mod` 2 ^ 64) in *; clearbody r.

(** Subtracting twice from the same constant is the identity on [uint64],
    wrap-around included. *)
Lemma flip64_involutive k v :
  is_uint64 v → sub64 (sub64 k (sub64 (sub64 k v) 1)) 1 = v.
Proof.
  intros Hv. unfold sub64, wrap64, is_uint64 in *.
  name_wrap (k - v) a1. name_wrap (a1 - 1) a2.
  name_wrap (k - a2) a3. name_wrap (a3 - 1) a4.
  lia.
Qed.

(** ** Loops *)

Lemma for_loop_foldl {S : Type} (body : Z → S → S) n x s :
  0 ≤ x → x + Z.of_nat n < 2 ^ 63 →
  for_loop n x body s = foldl (λ s x, body x s) s (seqZ x (Z.of_nat n)).
Proof.
  revert x s. induction n as [|n IH]; intros x s Hx Hn.
  - reflexivity.
  - rewrite seqZ_cons by lia. cbn [for_loop foldl].
    rewrite add_int_small by lia. rewrite IH by lia.
    do 2 f_equal; lia.
Qed.

Lemma for_below_foldl {S : Type} (body : Z → S → S) bound s :
  bound < 2 ^ 63 →
  for_below bound body s = foldl (λ s x, body x s) s (seqZ 0 bound).
Proof.
  intros Hb. unfold for_below.
  destruct (Z.le_gt_cases 0 bound) as [Hpos|Hneg].
  - rewrite for_loop_foldl by lia. by rewrite Z2Nat.id.
  - rewrite Z2Nat.nonpos, seqZ_nil by lia. reflexivity.
Qed.

Lemma foldl_ext_fun {A B : Type} (f g : A → B → A) (l : list B) (a : A) :
  (∀ a b, f a b = g a b) → foldl f a l = foldl g a l.
Proof.
  intros Hfg. revert a. induction l as [|b l IH]; intros a; cbn [foldl].
  - reflexivity.
  - by rewrite Hfg, IH.
Qed.

Lemma foldl_app_bind {A B : Type} (f : A → list B) (l : list A) (acc : list B) :
  foldl (λ acc a, acc ++ f a) acc l = acc ++ (l ≫= f).
Proof.
  revert acc. induction l as [|a l IH]; intros acc; cbn [foldl].
  - by rewrite app_nil_r.
  - rewrite IH, bind_cons. by rewrite app_assoc.
Qed.

(** Two nested counting loops that append one element per iteration build
    the list of the elements in the order of the iterations. *)
Lemma nested_loops_bind {B : Type} (g : Z → Z → B) bx by_ :
  bx < 2 ^ 63 → by_ < 2 ^ 63 →
  for_below bx (λ x acc, for_below by_ (λ y acc, acc ++ [g x y]) acc) [] =
  (x ← seqZ 0 bx; y ← seqZ 0 by_; [g x y]).
Proof.
  intros Hx Hy. rewrite for_below_foldl by done.
  rewrite (foldl_ext_fun _ (λ acc x, acc ++ (y ← seqZ 0 by_; [g x y]))).
  - by rewrite foldl_app_bind.
  - intros acc x. rewrite for_below_foldl by done.
    apply (foldl_app_bind (λ y, [g x y])).
Qed.

Lemma length_bind_singleton {A B : Type} (f : A → B) (l : list A) :
  length (y ← l; [f y]) = length l.
Proof.
  induction l as [|a l IH]; [reflexivity|].
  rewrite bind_cons, length_app, IH. reflexivity.
Qed.

Lemma length_bind_bind {A B C : Type} (g : A → B → C) (l1 : list A) (l2 : list B) :
  length (x ← l1; y ← l2; [g x y]) = (length l1 * length l2)%nat.
Proof.
  induction l1 as [|a l1 IH]; [reflexivity|].
  rewrite bind_cons, length_app, IH, length_bind_singleton. reflexivity.
Qed.

Lemma bind_seqZ_shift {B : Type} (f : Z → list B) m n :
  (x ← seqZ 0 n; f (m + x)) = (x ← seqZ m n; f x).
Proof.
  replace (seqZ m n) with (Z.add m <$> seqZ 0 n)
    by (rewrite fmap_add_seqZ; f_equal; lia).
  by rewrite list_fmap_bind.
Qed.

(** ** Metatile decomposition *)

Section Decomposition.
Import MetaTileCoord.

Lemma XSize_exact c :
  wf c → MinX c ≤ MaxX c → MaxX c - MinX c + 1 < 2 ^ 64 →
  XSize c = Ok (MaxX c - MinX c + 1).
Proof.
  intros (HminX & _ & HmaxX & _) Hle Hw. unfold XSize.
  destruct (Z.ltb_spec (MaxX c) (MinX c)); [lia|].
  unfold add64, sub64. rewrite (wrap64_small (MaxX c - MinX c)), wrap64_small;
    [reflexivity | unfold is_uint64 in *; lia ..].
Qed.

Lemma YSize_exact c :
  wf c → MinY c ≤ MaxY c → MaxY c - MinY c + 1 < 2 ^ 64 →
  YSize c = Ok (MaxY c - MinY c + 1).
Proof.
  intros (_ & HminY & _ & HmaxY & _) Hle Hw. unfold YSize.
  destruct (Z.ltb_spec (MaxY c) (MinY c)); [lia|].
  unfold add64, sub64. rewrite (wrap64_small (MaxY c - MinY c)), wrap64_small;
    [reflexivity | unfold is_uint64 in *; lia ..].
Qed.

(** Inside the block the loop counters address the tile they are meant to:
    neither addition wraps. *)
Lemma tileAt_exact c x y :
  wf c → 0 ≤ x → MinX c + x ≤ MaxX c → 0 ≤ y → MinY c + y ≤ MaxY c →
  tileAt c x y = TileCoord.mk (MinX c + x) (MinY c + y) (Zoom c) (Tms c) (Layer c).
Proof.
  intros (HminX & HminY & HmaxX & HmaxY & _) Hx Hx' Hy Hy'. unfold tileAt.
  unfold is_uint64 in *.
  f_equal; unfold add64, uint64_of_int.
  - rewrite (wrap64_small x), wrap64_small; unfold is_uint64; lia.
  - rewrite (wrap64_small y), wrap64_small; unfold is_uint64; lia.
Qed.

Lemma bind_ext_in {A B : Type} (f g : A → list B) (l : list A) :
  (∀ a, a ∈ l → f a = g a) → l ≫= f = l ≫= g.
Proof.
  intros Hfg. induction l as [|a l IH]; [reflexivity|].
  rewrite !bind_cons, Hfg, IH; [reflexivity | | left].
  intros b Hb. apply Hfg. by right.
Qed.

Lemma fmap_bind_list {A B C : Type} (h : B → C) (f : A → list B) (l : list A) :
  h <$> (l ≫= f) = l ≫= (λ a, h <$> f a).
Proof.
  induction l as [|a l IH]; [reflexivity|].
  by rewrite !bind_cons, fmap_app, IH.
Qed.

(** The list the two loops of [TileCoords] (and of the error path of
    [processRequestMeta]) range over, when the sizes fit an [int]. *)
Lemma loops_column_major {B : Type} (h : TileCoord.t → B) c :
  wf c → MinX c ≤ MaxX c → MinY c ≤ MaxY c →
  MaxX c - MinX c + 1 < 2 ^ 63 → MaxY c - MinY c + 1 < 2 ^ 63 →
  (x ← seqZ 0 (MaxX c - MinX c + 1); y ← seqZ 0 (MaxY c - MinY c + 1);
     [h (tileAt c x y)]) = h <$> column_major c.
Proof.
  intros Hwf HX HY HwX HwY. unfold column_major.
  rewrite <- (bind_seqZ_shift _ (MinX c)).
  rewrite fmap_bind_list. apply bind_ext_in. intros x Hx%elem_of_seqZ.
  rewrite <- (bind_seqZ_shift _ (MinY c)).
  rewrite fmap_bind_list. apply bind_ext_in. intros y Hy%elem_of_seqZ.
  cbn. by rewrite tileAt_exact by (assumption || lia).
Qed.

End Decomposition.



(** The spec's scenario: MinX=1, MinY=1, MaxX=2, MaxY=2, Zoom=3 decomposes
    into (1,1),(1,2),(2,1),(2,2) in that order. *)
Example TileCoords_block2x2 :
  MetaTileCoord.TileCoords Inputs.block2x2 =
  Ok [TileCoord.mk 1 1 3 false "default"; TileCoord.mk 1 2 3 false "default";
      TileCoord.mk 2 1 3 false "default"; TileCoord.mk 2 2 3 false "default"].
Proof. vm_compute. reflexivity. Qed.


(** ** Scheme conversion *)

(** The row flip of [setTMS]: [(1 << zoom) - y - 1] at type [uint64]. *)
Lemma flip64_below k v :
  is_uint64 k → 0 ≤ v < k → sub64 (sub64 k v) 1 = k - v - 1.
Proof.
  unfold is_uint64, sub64. intros Hk Hv.
  rewrite (wrap64_small (k - v)) by (unfold is_uint64; lia).
  apply wrap64_small. unfold is_uint64. lia.
Qed.

Lemma flip64_above k v :
  is_uint64 k → is_uint64 v → k ≤ v → sub64 (sub64 k v) 1 = k - v - 1 + 2 ^ 64.
Proof.
  unfold is_uint64, sub64, wrap64. intros Hk Hv Hkv.
  name_wrap (k - v) a1. name_wrap (a1 - 1) a2.
  lia.
Qed.

Lemma shl64_one zoom : 0 ≤ zoom < 64 → shl64 1 zoom = 2 ^ zoom.
Proof.
  intros Hz. unfold shl64. rewrite Z.shiftl_1_l.
  apply wrap64_small. unfold is_uint64. split; [lia|].
  apply Z.pow_lt_mono_r; lia.
Qed.

Lemma TileCoord_setTMS_idempotent c tms :
  TileCoord.setTMS (TileCoord.setTMS c tms) tms = TileCoord.setTMS c tms.
Proof.
  unfold TileCoord.setTMS at 2 3. case_bool_decide as Hne.
  - unfold TileCoord.setTMS. cbn. by rewrite bool_decide_false by naive_solver.
  - unfold TileCoord.setTMS. by rewrite bool_decide_false by naive_solver.
Qed.

Lemma TileCoord_setTMS_toggle c :
  TileCoord.setTMS c (negb (TileCoord.Tms c)) =
  TileCoord.mk (TileCoord.X c)
    (sub64 (sub64 (shl64 1 (TileCoord.Zoom c)) (TileCoord.Y c)) 1)
    (TileCoord.Zoom c) (negb (TileCoord.Tms c)) (TileCoord.Layer c).
Proof.
  unfold TileCoord.setTMS. rewrite bool_decide_true; [reflexivity|].
  by destruct (TileCoord.Tms c).
Qed.

Lemma TileCoord_setTMS_back c :
  TileCoord.wf c →
  TileCoord.setTMS (TileCoord.setTMS c (negb (TileCoord.Tms c))) (TileCoord.Tms c) = c.
Proof.
  intros (_ & HY & _). rewrite TileCoord_setTMS_toggle.
  unfold TileCoord.setTMS. cbn.
  rewrite bool_decide_true by (by destruct (TileCoord.Tms c)).
  rewrite flip64_involutive by done. by destruct c.
Qed.

Lemma TileCoord_setTMS_row_exact c :
  TileCoord.wf c →
  TileCoord.Zoom c < 64 → TileCoord.Y c < 2 ^ TileCoord.Zoom c →
  TileCoord.Y (TileCoord.setTMS c (negb (TileCoord.Tms c))) =
    2 ^ TileCoord.Zoom c - TileCoord.Y c - 1.
Proof.
  intros (_ & HY & HZ) Hz Hy. rewrite TileCoord_setTMS_toggle. cbn.
  unfold is_uint64 in *.
  rewrite shl64_one by lia. apply flip64_below; [|lia].
  rewrite <- shl64_one by lia. apply wrap64_range.
Qed.

Lemma MetaTileCoord_setTMS_idempotent c tms :
  MetaTileCoord.setTMS (MetaTileCoord.setTMS c tms) tms = MetaTileCoord.setTMS c tms.
Proof.
  unfold MetaTileCoord.setTMS at 2 3. case_bool_decide as Hne.
  - unfold MetaTileCoord.setTMS. cbn. by rewrite bool_decide_false by naive_solver.
  - unfold MetaTileCoord.setTMS. by rewrite bool_decide_false by naive_solver.
Qed.

Lemma MetaTileCoord_setTMS_toggle c :
  MetaTileCoord.setTMS c (negb (MetaTileCoord.Tms c)) =
  MetaTileCoord.mk (MetaTileCoord.MinX c)
    (sub64 (sub64 (shl64 1 (MetaTileCoord.Zoom c)) (MetaTileCoord.MaxY c)) 1)
    (MetaTileCoord.MaxX c)
    (sub64 (sub64 (shl64 1 (MetaTileCoord.Zoom c)) (MetaTileCoord.MinY c)) 1)
    (MetaTileCoord.Zoom c) (negb (MetaTileCoord.Tms c)) (MetaTileCoord.Layer c).
Proof.
  unfold MetaTileCoord.setTMS. rewrite bool_decide_true; [reflexivity|].
  by destruct (MetaTileCoord.Tms c).
Qed.

Lemma MetaTileCoord_setTMS_back c :
  MetaTileCoord.wf c →
  MetaTileCoord.setTMS (MetaTileCoord.setTMS c (negb (MetaTileCoord.Tms c)))
    (MetaTileCoord.Tms c) = c.
Proof.
  intros (_ & HminY & _ & HmaxY & _). rewrite MetaTileCoord_setTMS_toggle.
  unfold MetaTileCoord.setTMS. cbn.
  rewrite bool_decide_true by (by destruct (MetaTileCoord.Tms c)).
  rewrite !flip64_involutive by done. by destruct c.
Qed.

(** The flip reverses the order of two rows that lie on the same side of
    [1 << zoom]. *)
Lemma flip64_antitone k a b :
  is_uint64 k → is_uint64 a → is_uint64 b → a ≤ b → b < k ∨ k ≤ a →
  sub64 (sub64 k b) 1 ≤ sub64 (sub64 k a) 1.
Proof.
  intros Hk Ha Hb Hab [Hlo|Hhi].
  - rewrite !flip64_below by (unfold is_uint64 in *; lia). lia.
  - rewrite !flip64_above by (unfold is_uint64 in *; lia). lia.
Qed.




(** ** Sending loops *)

Lemma for_loopM_sends (f : Z → list TileFetchResult.t) (body : Z → Proc unit) n x ch :
  (∀ i ch, body i ch = (Ok tt, ch ++ f i)) →
  0 ≤ x → x + Z.of_nat n < 2 ^ 63 →
  for_loopM n x body ch = (Ok tt, ch ++ (seqZ x (Z.of_nat n) ≫= f)).
Proof.
  intros Hbody. revert x ch. induction n as [|n IH]; intros x ch Hx Hn.
  - cbn. by rewrite app_nil_r.
  - rewrite seqZ_cons by lia. cbn [for_loopM].
    unfold mbind at 1, Proc_bind. rewrite Hbody.
    rewrite add_int_small by lia. rewrite IH by lia.
    rewrite bind_cons, app_assoc. do 4 f_equal; lia.
Qed.

Lemma for_belowM_sends (f : Z → list TileFetchResult.t) (body : Z → Proc unit) bound ch :
  (∀ i ch, body i ch = (Ok tt, ch ++ f i)) →
  bound < 2 ^ 63 →
  for_belowM bound body ch = (Ok tt, ch ++ (seqZ 0 bound ≫= f)).
Proof.
  intros Hbody Hb. unfold for_belowM.
  destruct (Z.le_gt_cases 0 bound) as [Hpos|Hneg].
  - rewrite (for_loopM_sends f) by (done || lia). by rewrite Z2Nat.id.
  - rewrite Z2Nat.nonpos, seqZ_nil by lia. cbn. by rewrite app_nil_r.
Qed.

Lemma for_range_send (l : list TileFetchResult.t) ch :
  for_range l send ch = (Ok tt, ch ++ l).
Proof.
  revert ch. induction l as [|r l IH]; intros ch; cbn [for_range].
  - cbn. by rewrite app_nil_r.
  - unfold mbind, Proc_bind, send at 1. rewrite IH. by rewrite <- app_assoc.
Qed.

(** ** The metatile worker *)

Section Worker.
Context `{Renderer}.

Lemma Count_range c n : MetaTileCoord.Count c = Ok n → is_uint64 n.
Proof.
  unfold MetaTileCoord.Count.
  destruct (MetaTileCoord.XSize c); [|discriminate].
  destruct (MetaTileCoord.YSize c); [|discriminate].
  cbn. intros [= <-]. apply wrap64_range.
Qed.

(** The error path: what is sent when the block render returned [e]. *)
Lemma processRequestMeta_error c results e ch :
  MetaTileCoord.wf c →
  MetaTileCoord.MinX c ≤ MetaTileCoord.MaxX c →
  MetaTileCoord.MinY c ≤ MetaTileCoord.MaxY c →
  (MetaTileCoord.MaxX c - MetaTileCoord.MinX c + 1) *
    (MetaTileCoord.MaxY c - MetaTileCoord.MinY c + 1) < 2 ^ 63 →
  RenderMetaTile c = Ok (results, Some e) →
  processRequestMeta c ch =
    (Ok tt, ch ++ ((λ tc, TileFetchResult.mk tc None (Some e))
                     <$> MetaTileCoord.column_major c)).
Proof.
  intros Hwf HX HY Hcount Hrender.
  remember (MetaTileCoord.MaxX c - MetaTileCoord.MinX c + 1) as wx eqn:Ewx.
  remember (MetaTileCoord.MaxY c - MetaTileCoord.MinY c + 1) as wy eqn:Ewy.
  assert (1 ≤ wx) by lia. assert (1 ≤ wy) by lia.
  assert (wx < 2 ^ 63) by nia. assert (wy < 2 ^ 63) by nia.
  assert (HXS : MetaTileCoord.XSize c = Ok wx)
    by (rewrite Ewx; apply XSize_exact; [assumption | lia ..]).
  assert (HYS : MetaTileCoord.YSize c = Ok wy)
    by (rewrite Ewy; apply YSize_exact; [assumption | lia ..]).
  unfold processRequestMeta, MetaTileCoord.Count.
  rewrite HXS, HYS, Hrender.
  unfold mbind, Proc_bind, call, mret, result_ret. cbn.
  rewrite !int_of_uint64_small by lia.
  rewrite (for_belowM_sends
    (λ x, y ← seqZ 0 wy;
          [TileFetchResult.mk (MetaTileCoord.tileAt c x y) None (Some e)])) by
    (try lia; intros x ch'; by apply (for_belowM_sends (λ y, [_]))).
  do 2 f_equal. rewrite Ewx, Ewy.
  apply (loops_column_major (λ tc, TileFetchResult.mk tc None (Some e)));
    (assumption || lia).
Qed.

End Worker.




(** C9.  For every metatile request whose block render succeeds but returns
    a number of results different from Count(), the worker panics with the
    count mismatch and has written none of the results to the reply
    channel: the channel holds what it held before. *)
Theorem processRequestMeta_count_mismatch_panics
    (R : Renderer) (c : MetaTileCoord.t) (n : Z)
    (results : list TileFetchResult.t) (ch : list TileFetchResult.t) :
  MetaTileCoord.Count c = Ok n →
  RenderMetaTile c = Ok (results, None) →
  Z.of_nat (length results) ≠ n →
  processRequestMeta c ch =
    (Panicked (PanicCountMismatch (Z.of_nat (length results)) n), ch).
Proof.
  intros Hcount Hrender Hne.
  pose proof (Count_range c n Hcount) as Hn.
  unfold processRequestMeta. rewrite Hcount, Hrender.
  unfold mbind, Proc_bind, call. cbn.
  rewrite bool_decide_true; [reflexivity|].
  unfold is_uint64 in Hn.
  destruct (Z.lt_ge_cases n (2 ^ 63)).
  - by rewrite int_of_uint64_small by lia.
  - rewrite int_of_uint64_big by lia. lia.
Qed.

Lemma processRequestMeta_count_mismatch_panics_witness :
  MetaTileCoord.Count Inputs.overflowing_block = Ok 2 ∧
  @RenderMetaTile Mock.blank Inputs.overflowing_block = Ok ([], None) ∧
  @processRequestMeta Mock.blank Inputs.overflowing_block [] =
    (Panicked (PanicCountMismatch 0 2), []).
Proof.
  assert (HC : MetaTileCoord.Count Inputs.overflowing_block = Ok 2)
    by (vm_compute; reflexivity).
  assert (HR : @RenderMetaTile Mock.blank Inputs.overflowing_block = Ok ([], None))
    by (vm_compute; reflexivity).
  split; [exact HC|]. split; [exact HR|].
  apply (processRequestMeta_count_mismatch_panics Mock.blank
           Inputs.overflowing_block 2 [] [] HC HR).
  cbn. lia.
Defined.

Lemma int_of_uint64_lt z : z < 2 ^ 64 → int_of_uint64 z < 2 ^ 63.
Proof. intros Hz. unfold int_of_uint64. case_match; lia. Qed.

Lemma XSize_range c xSize : MetaTileCoord.XSize c = Ok xSize → is_uint64 xSize.
Proof.
  unfold MetaTileCoord.XSize. case_match; [discriminate|].
  intros [= <-]. apply wrap64_range.
Qed.

Lemma YSize_range c ySize : MetaTileCoord.YSize c = Ok ySize → is_uint64 ySize.
Proof.
  unfold MetaTileCoord.YSize. case_match; [discriminate|].
  intros [= <-]. apply wrap64_range.
Qed.

(** X11.  A panic of the worker never follows a send: whenever
    [processRequestMeta] panics, the reply channel is as it was. *)
Lemma processRequestMeta_panic_sends_nothing
    (R : Renderer) (c : MetaTileCoord.t) (ch ch' : list TileFetchResult.t) p :
  processRequestMeta c ch = (Panicked p, ch') → ch' = ch.
Proof.
  unfold processRequestMeta, mbind, Proc_bind, call.
  destruct (MetaTileCoord.Count c) as [n|] eqn:Hcount; [|by intros [= _ <-]].
  destruct (RenderMetaTile c) as [[results [e|]]|]; [| |by intros [= _ <-]].
  - unfold MetaTileCoord.Count in Hcount.
    destruct (MetaTileCoord.XSize c) as [xSize|] eqn:HXS; [|discriminate].
    destruct (MetaTileCoord.YSize c) as [ySize|] eqn:HYS; [|discriminate].
    apply XSize_range in HXS. apply YSize_range in HYS.
    rewrite (for_belowM_sends
      (λ x, y ← seqZ 0 (int_of_uint64 ySize);
            [TileFetchResult.mk (MetaTileCoord.tileAt c x y) None (Some e)])).
    + discriminate.
    + intros x ch''. apply (for_belowM_sends (λ y, [_])); [done|].
      apply int_of_uint64_lt, HYS.
    + apply int_of_uint64_lt, HXS.
  - case_bool_decide; [by intros [= _ <-]|].
    rewrite for_range_send. discriminate.
Qed.

(** ** Exclusivity of bytes and error *)

Section Exclusivity.
Context `{Renderer}.

(** The single-tile path clears the bytes when the render failed. *)
Lemma processRequestTile_exclusive coord ch :
  ∃ r, processRequestTile coord ch = (Ok tt, ch ++ [r]) ∧
       TileFetchResult.Coord r = coord ∧ exclusive r.
Proof.
  unfold processRequestTile. destruct (RenderTile coord) as [blob [e|]].
  - eexists. split; [reflexivity|]. split; [reflexivity|].
    intros [[b Hb] _]. discriminate.
  - eexists. split; [reflexivity|]. split; [reflexivity|].
    intros [_ [e He]]. discriminate.
Qed.

(** The slicing loop hands on what the encoder left in the buffer together
    with the encoder's error. *)
Lemma sliceAt_passes_encoder_result c img bx by_ x y :
  ∃ subimg,
    TileFetchResult.BlobPNG (sliceAt c img bx by_ x y) = (png_Encode subimg).1 ∧
    TileFetchResult.Error (sliceAt c img bx by_ x y) = (png_Encode subimg).2.
Proof.
  exists (SubImage img
            ((add_int (mul_int x 256) bx, add_int (mul_int y 256) by_),
             (add_int (mul_int (add_int x 1) 256) bx,
              add_int (mul_int (add_int y 1) 256) by_))).
  unfold sliceAt. by destruct (png_Encode _).
Qed.

(** With an encoder that leaves the buffer empty whenever it fails, the
    results of a block render are exclusive. *)
Lemma RenderMetaTile_exclusive_if_encoder c results err :
  (∀ img, ¬ (is_Some (png_Encode img).1 ∧ is_Some (png_Encode img).2)) →
  RenderMetaTile c = Ok (results, err) →
  Forall exclusive results.
Proof.
  intros Henc. unfold RenderMetaTile.
  set (c' := MetaTileCoord.setTMS c false).
  case_match; [by intros [= <- _]|].
  destruct (MetaTileCoord.XSize c') as [xSize|] eqn:HXS; [|discriminate].
  destruct (MetaTileCoord.YSize c') as [ySize|] eqn:HYS; [|discriminate].
  cbn. destruct (renderTileInternal _ _ _ _ _ _ _ _) as [blob [e|]];
    [by intros [= <- _]|].
  destruct (makeslice _); [|discriminate]. cbn.
  case_match.
  { intros [= <- _]. constructor; [|constructor].
    intros [_ [e He]]. discriminate. }
  destruct (png_Decode blob) as [img|e]; [|by intros [= <- _]].
  destruct (Bounds_Min img) as [bx by_].
  case_match; [by intros [= <- _]|].
  intros [= <- _].
  apply XSize_range in HXS. apply YSize_range in HYS.
  rewrite nested_loops_bind by (apply int_of_uint64_lt; (apply HXS || apply HYS)).
  apply Forall_forall. intros r (x & Hr & _)%list_elem_of_bind.
  apply list_elem_of_bind in Hr as (y & Hr & _).
  apply list_elem_of_singleton in Hr as ->.
  destruct (sliceAt_passes_encoder_result c' img bx by_ x y) as (subimg & Hb & He).
  unfold exclusive. rewrite Hb, He. apply Henc.
Qed.

End Exclusivity.


(** ** The layer multiplexer *)

Lemma Listen_step_other_reply `{Renderer} c ch w r w1 :
  Listen_step c w = Some (r, w1) →
  ¬ awaits_on ch w →
  replies w1 !! ch = replies w !! ch ∧ ¬ awaits_on ch w1.
Proof.
  unfold Listen_step. intros Hstep Hfree.
  destruct (queues w !! c) as [[|request rest]|] eqn:Hq; try discriminate.
  destruct (ProcessRequest request _) as [r' sent].
  injection Hstep as <- <-. cbn.
  assert (GetOutChan request ≠ ch) as Hne.
  { intros Heq. apply Hfree. exists c, (request :: rest), request.
    split; [done|]. split; [left | done]. }
  split; [by apply lookup_insert_ne|].
  intros (c' & q & r0 & Hq' & Hin & Hout). apply Hfree. cbn in Hq'.
  destruct (decide (c = c')) as [<-|Hc].
  - rewrite lookup_insert_eq in Hq'. injection Hq' as <-.
    exists c, (request :: rest), r0. split; [done|]. split; [by right | done].
  - rewrite lookup_insert_ne in Hq' by done. by exists c', q, r0.
Qed.

(** A reply channel no waiting request refers to is never written by the
    workers. *)
Lemma worker_steps_other_reply ch w w' :
  worker_steps w w' →
  ¬ awaits_on ch w →
  replies w' !! ch = replies w !! ch.
Proof.
  induction 1 as [w | R c w w1 w2 Hstep _ IH | R c w w1 p Hstep]; intros Hfree.
  - reflexivity.
  - destruct (Listen_step_other_reply c ch w _ w1 Hstep Hfree) as [Heq Hfree1].
    by rewrite IH.
  - by destruct (Listen_step_other_reply c ch w _ w1 Hstep Hfree).
Qed.

(** C8.  SubmitRequest returns true and enqueues the request if and only if
    a queue is registered under the request's layer name; for an
    unregistered name it returns false, the request is in no queue, and
    nothing is ever written to the request's reply channel, whatever the
    workers do afterwards. *)
Theorem SubmitRequest_accepts_iff_registered
    (l : LayerMultiplex) (r : FetchRequest) (w : Runtime) :
  ((SubmitRequest l r w).1 = true ↔ is_Some (layerChans l !! GetLayer r)) ∧
  (∀ c, layerChans l !! GetLayer r = Some c →
     (SubmitRequest l r w).1 = true ∧
     queues (SubmitRequest l r w).2 =
       <[c := default [] (queues w !! c) ++ [r]]> (queues w) ∧
     replies (SubmitRequest l r w).2 = replies w) ∧
  (layerChans l !! GetLayer r = None →
     (SubmitRequest l r w).1 = false ∧
     queues (SubmitRequest l r w).2 = queues w ∧
     replies (SubmitRequest l r w).2 = replies w ∧
     (¬ awaits_on (GetOutChan r) w →
      ∀ w', worker_steps (SubmitRequest l r w).2 w' →
            replies w' !! GetOutChan r = replies w !! GetOutChan r)).
Proof.
  unfold SubmitRequest.
  destruct (layerChans l !! GetLayer r) as [c|] eqn:Hl; cbn.
  - split; [split; eauto|]. split; [|discriminate].
    by intros c' [= <-].
  - split; [split; [discriminate | by intros [? ?]]|]. split; [discriminate|].
    intros _. repeat split.
    intros Hfree w' Hsteps.
    by apply (worker_steps_other_reply _ _ _ Hsteps).
Qed.

Lemma SubmitRequest_accepts_iff_registered_witness :
  ((SubmitRequest Inputs.roads_only Inputs.roads_request Inputs.idle).1 = true ∧
   queues (SubmitRequest Inputs.roads_only Inputs.roads_request Inputs.idle).2
     = <[7%nat := [Inputs.roads_request]]> ∅) ∧
  ((SubmitRequest Inputs.roads_only Inputs.rivers_request Inputs.idle).1 = false ∧
   queues (SubmitRequest Inputs.roads_only Inputs.rivers_request Inputs.idle).2 = ∅ ∧
   ∀ w', worker_steps
           (SubmitRequest Inputs.roads_only Inputs.rivers_request Inputs.idle).2 w' →
         replies w' !! 2%nat = None).
Proof.
  split.
  - destruct (proj1 (proj2 (SubmitRequest_accepts_iff_registered
                Inputs.roads_only Inputs.roads_request Inputs.idle)) 7%nat)
      as (Hacc & Hq & _); [vm_compute; reflexivity|].
    split; [exact Hacc | exact Hq].
  - destruct (proj2 (proj2 (SubmitRequest_accepts_iff_registered
                Inputs.roads_only Inputs.rivers_request Inputs.idle)))
      as (Hacc & Hq & _ & Hnever); [vm_compute; reflexivity|].
    split; [exact Hacc|]. split; [exact Hq|].
    apply Hnever. intros (c & q & r0 & Hc & _). cbn in Hc.
    by rewrite lookup_empty in Hc.
Defined.

(** ** The tile cache *)

Example NewTileDb_fresh : NewTileDb = Some Inputs.fresh_cache.
Proof. vm_compute. reflexivity. Qed.

Example fresh_cache_registry_ok : registry_ok Inputs.fresh_cache.
Proof.
  split; [apply NoDup_singleton|].
  intros l id Hl. cbn in Hl.
  apply lookup_singleton_Some in Hl as [<- <-]. vm_compute. reflexivity.
Qed.

Lemma filter_none_nil {A : Type} (P : A → Prop) `{∀ a, Decision (P a)} (l : list A) :
  (∀ a, a ∈ l → ¬ P a) → filter P l = [].
Proof.
  intros Hnone. induction l as [|a l IH]; [reflexivity|].
  rewrite filter_cons_False by (apply Hnone; left).
  apply IH. intros b Hb. apply Hnone. by right.
Qed.

(** [fetch] converts to the TMS row before the query and sends the
    converted coordinate back. *)
Lemma fetch_result_Coord m r :
  TileFetchResult.Coord (fetch_result m r) =
  TileCoord.setTMS (TileFetchRequest.Coord r) true.
Proof. unfold fetch_result. cbn. by destruct (select_tile_data _ _ _ _ _). Qed.

(** [fetch] reports an error exactly when the query itself failed. *)
Lemma fetch_result_Error m r :
  TileFetchResult.Error (fetch_result m r) = fault (db m).
Proof.
  unfold fetch_result, select_tile_data. cbn.
  destruct (fault (db m)); [reflexivity|].
  destruct (layer_rowid _ _); [|reflexivity].
  destruct (layered_tiles _ !! _); [|reflexivity].
  by destruct (filter _ _).
Qed.

(** The cache fetch path never sends bytes together with an error. *)
Lemma fetch_result_exclusive m r : exclusive (fetch_result m r).
Proof.
  unfold exclusive, fetch_result. cbn.
  destruct (select_tile_data _ _ _ _ _); cbn; intros [[? ?] [? ?]]; discriminate.
Qed.

(** C3 (amended).  For every cache Fetch of a coordinate whose tile record
    exists but whose referenced blob row is absent, on a store that answers
    its queries, the returned TileFetchResult is a plain miss: nil bytes
    and nil error.  An error is set only when the query itself fails. *)
Theorem fetch_dangling_record_is_miss
    (m : TileDb) (r : TileFetchRequest.t) (layer_id : Z) (checksum : string) :
  let coord := TileCoord.setTMS (TileFetchRequest.Coord r) true in
  fault (db m) = None →
  layer_rowid (db m) (default_layer (TileCoord.Layer coord)) = Some layer_id →
  layered_tiles (db m) !! (layer_id, TileCoord.Zoom coord, TileCoord.X coord,
                           TileCoord.Y coord) = Some checksum →
  (∀ row, row ∈ tile_blobs (db m) → row.1 ≠ checksum) →
  fetch_result m r = TileFetchResult.mk coord None None ∧
  ∀ m' r', TileFetchResult.Error (fetch_result m' r') = fault (db m').
Proof.
  intros coord Hfault Hlayer Htile Hblob.
  split; [|apply fetch_result_Error].
  unfold fetch_result, select_tile_data. fold coord.
  rewrite Hfault, Hlayer, Htile.
  by rewrite filter_none_nil.
Qed.

Lemma fetch_dangling_record_is_miss_witness :
  layered_tiles (db Inputs.dangling_cache) !! (1, 0, 0, 0) = Some "0123abcd"%string ∧
  tile_blobs (db Inputs.dangling_cache) = [] ∧
  fetch_result Inputs.dangling_cache Inputs.dangling_request =
    TileFetchResult.mk (TileCoord.mk 0 0 0 true "") None None.
Proof.
  split; [vm_compute; reflexivity|]. split; [reflexivity|].
  apply (fetch_dangling_record_is_miss Inputs.dangling_cache
           Inputs.dangling_request 1 "0123abcd"%string).
  - reflexivity.
  - vm_compute. reflexivity.
  - vm_compute. reflexivity.
  - intros row Hrow. cbn in Hrow. by apply not_elem_of_nil in Hrow.
Defined.

(** C3 as stated fails: the tile record of [dangling_cache] names a
    checksum that has no blob row, and the fetch reports nil bytes with a
    nil error. *)
Lemma fetch_dangling_record_no_error :
  layer_rowid (db Inputs.dangling_cache) "default" = Some 1 ∧
  layered_tiles (db Inputs.dangling_cache) !! (1, 0, 0, 0) = Some "0123abcd"%string ∧
  filter (λ row, row.1 = "0123abcd"%string) (tile_blobs (db Inputs.dangling_cache)) = [] ∧
  TileFetchResult.BlobPNG (fetch_result Inputs.dangling_cache Inputs.dangling_request) = None ∧
  ¬ is_Some (TileFetchResult.Error
               (fetch_result Inputs.dangling_cache Inputs.dangling_request)).
Proof.
  split; [vm_compute; reflexivity|].
  split; [vm_compute; reflexivity|].
  split; [reflexivity|].
  split; [vm_compute; reflexivity|].
  intros [e He]. vm_compute in He. discriminate.
Qed.

(** *** The layer registry *)

Lemma select_layers_names_from (k : nat) (names : list string) :
  (imap (λ i s, (Z.of_nat (S (k + i)), s)) names).*2 = names.
Proof.
  revert k. induction names as [|name names IH]; intros k; [reflexivity|].
  cbn. f_equal. rewrite <- (IH (S k)) at 2. f_equal.
  apply imap_ext. intros i s _. cbn. do 3 f_equal. lia.
Qed.

Lemma select_layers_names d : (select_layers d).*2 = layers d.
Proof. apply (select_layers_names_from 0). Qed.

Lemma foldl_insert_is_Some (rows : list (Z * string)) (ids : gmap string Z) l :
  l ∈ rows.*2 ∨ is_Some (ids !! l) →
  is_Some (foldl (λ ids row, <[row.2 := row.1]> ids) ids rows !! l).
Proof.
  revert ids. induction rows as [|row rows IH]; intros ids Hin; cbn.
  - destruct Hin as [Hin|Hin]; [by apply not_elem_of_nil in Hin | done].
  - apply IH. destruct Hin as [Hin|Hin].
    + cbn in Hin. apply elem_of_cons in Hin as [->|Hin]; [right|by left].
      rewrite lookup_insert_eq. eauto.
    + right. destruct (decide (row.2 = l)) as [<-|Hne].
      * rewrite lookup_insert_eq. eauto.
      * by rewrite lookup_insert_ne.
Qed.

(** The map [readLayers] builds sends a name to the rowid the table has
    for it. *)
Lemma readLayers_lookup (names : list string) l id :
  NoDup names →
  foldl (λ ids row, <[row.2 := row.1]> ids) (∅ : gmap string Z)
    (imap (λ i s, (Z.of_nat (S i), s)) names) !! l = Some id →
  (λ p, Z.of_nat (S p.1)) <$> list_find (λ n, n = l) names = Some id.
Proof.
  induction names as [|name names IH] using rev_ind; intros Hnodup.
  - cbn. by rewrite lookup_empty.
  - apply NoDup_app in Hnodup as (Hnames & Hfresh & _).
    rewrite imap_app, foldl_app. cbn [imap foldl fst snd].
    destruct (decide (name = l)) as [->|Hne].
    + rewrite lookup_insert_eq. intros [= <-].
      rewrite list_find_app_r.
      * cbn. rewrite decide_True by done. cbn. do 3 f_equal. lia.
      * apply list_find_None, Forall_forall. intros n Hn ->.
        apply (Hfresh l Hn). by left.
    + rewrite lookup_insert_ne by done. intros Hl.
      specialize (IH Hnames Hl).
      destruct (list_find (λ n, n = l) names) as [[i n]|] eqn:Hfind; [|done].
      by rewrite (list_find_app_l _ _ _ _ _ Hfind).
Qed.

Lemma readLayers_ok m :
  fault (db m) = None →
  readLayers m =
    Some {| db := db m;
            layerIds := foldl (λ ids row, <[row.2 := row.1]> ids) ∅ (select_layers (db m));
            dblog := dblog m |}.
Proof. intros Hfault. unfold readLayers. by rewrite Hfault. Qed.

Lemma ensureLayer_known m l :
  is_Some (layerIds m !! l) → ensureLayer m l = Some m.
Proof. intros [id Hid]. unfold ensureLayer. by rewrite Hid. Qed.

(** On a store that answers, [ensureLayer] returns, the layer has an id
    afterwards, the tile and blob tables are as before, and the registry
    still agrees with the table. *)
Lemma ensureLayer_ok m l :
  fault (db m) = None →
  ∃ m', ensureLayer m l = Some m' ∧
        is_Some (layerIds m' !! l) ∧
        fault (db m') = None ∧
        layered_tiles (db m') = layered_tiles (db m) ∧
        tile_blobs (db m') = tile_blobs (db m) ∧
        dblog m' = dblog m ∧
        (NoDup (layers (db m)) → registry_ok m → registry_ok m').
Proof.
  intros Hfault. unfold ensureLayer.
  destruct (layerIds m !! l) as [id|] eqn:Hid.
  - exists m. rewrite Hid. eauto 10.
  - unfold insert_or_ignore_layer. rewrite Hfault.
    case_bool_decide as Hin.
    + rewrite readLayers_ok by done.
      eexists. split; [reflexivity|].
      unfold with_db, registry_ok.
      cbn [db layerIds dblog fault layered_tiles tile_blobs layers].
      repeat split; try done.
      * apply foldl_insert_is_Some. left. by rewrite select_layers_names.
      * intros l' id' Hl'. by apply readLayers_lookup.
    + rewrite readLayers_ok by done.
      eexists. split; [reflexivity|].
      unfold with_db, registry_ok.
      cbn [db layerIds dblog fault layered_tiles tile_blobs layers].
      assert (NoDup (layers (db m)) → NoDup (layers (db m) ++ [l])) as Hnodup.
      { intros Hnd. apply NoDup_app. split; [done|]. split; [|apply NoDup_singleton].
        intros n Hn. rewrite list_elem_of_singleton. by intros ->. }
      repeat split; try done.
      * apply foldl_insert_is_Some. left. rewrite select_layers_names.
        cbn [layers]. apply elem_of_app. right. by left.
      * by apply Hnodup.
      * intros l' id' Hl'. apply readLayers_lookup; [by apply Hnodup | done].
Qed.

Section CacheProperties.
Context `{Md5}.

(** *** What [insert] leaves behind *)

Lemma insert_spec m i :
  let coord := TileCoord.setTMS (TileFetchResult.Coord i) true in
  let l := default_layer (TileCoord.Layer coord) in
  let s := checksum (TileFetchResult.BlobPNG i) in
  fault (db m) = None →
  ∃ m', insert m i = Some m' ∧
        is_Some (layerIds m' !! l) ∧
        fault (db m') = None ∧
        dblog m' = dblog m ∧
        tile_blobs (db m') = blobs_after (db m) s (TileFetchResult.BlobPNG i) ∧
        layered_tiles (db m') =
          <[(layerId m' l, TileCoord.Zoom coord, TileCoord.X coord, TileCoord.Y coord) := s]>
            (layered_tiles (db m)) ∧
        (registry_ok m → registry_ok m').
Proof.
  intros coord l s Hfault. unfold insert, blobs_after. fold coord l s.
  unfold select_blob_exists, replace_into_tile_blobs. rewrite Hfault.
  destruct (filter _ (tile_blobs (db m))) as [|row rows] eqn:Hrows.
  - set (m0 := with_db m _).
    destruct (ensureLayer_ok m0 l eq_refl)
      as (m1 & -> & Hl & Hf1 & Ht1 & Hb1 & Hlog1 & Hreg).
    cbn. unfold replace_into_layered_tiles. rewrite Hf1. cbn.
    eexists. split; [reflexivity|]. cbn. rewrite Ht1, Hb1.
    split_and!; try done. intros Hok. by apply Hreg; [apply Hok | exact Hok].
  - destruct (ensureLayer_ok m l Hfault)
      as (m1 & -> & Hl & Hf1 & Ht1 & Hb1 & Hlog1 & Hreg).
    cbn. unfold replace_into_layered_tiles. rewrite Hf1. cbn.
    eexists. split; [reflexivity|]. cbn. rewrite Ht1.
    split_and!; try done. intros Hok. by apply Hreg; [apply Hok | exact Hok].
Qed.


End CacheProperties.

Section CacheClaims.
Context `{Md5}.


End CacheClaims.



(** *** Deduplication *)

Section Dedup.
Context `{Md5}.

Lemma blobs_after_has_row d s blob :
  filter (λ row, row.1 = s) (blobs_after d s blob) ≠ [].
Proof.
  unfold blobs_after.
  destruct (filter _ (tile_blobs d)) as [|row rows] eqn:Hrows.
  - rewrite filter_app, Hrows, filter_cons_True by done. discriminate.
  - by rewrite Hrows.
Qed.

(** X16.  Running [insert] on the same result a second time changes
    nothing: the cache is left exactly as the first call left it. *)
Lemma insert_idempotent m i m1 :
  fault (db m) = None →
  insert m i = Some m1 →
  insert m1 i = Some m1.
Proof.
  intros Hfault Hins.
  destruct (insert_spec m i Hfault) as (m1' & Hins' & Hl & Hf1 & _ & Hblobs & Htiles & _).
  rewrite Hins in Hins'. injection Hins' as <-.
  pose proof (blobs_after_has_row (db m)
                (checksum (TileFetchResult.BlobPNG i)) (TileFetchResult.BlobPNG i)) as Hrow.
  rewrite <- Hblobs in Hrow.
  unfold insert, select_blob_exists. rewrite Hf1.
  destruct (filter _ (tile_blobs (db m1))) as [|row rows]; [done|].
  rewrite ensureLayer_known by done. cbn.
  unfold replace_into_layered_tiles. rewrite Hf1. cbn.
  f_equal. unfold with_db.
  rewrite insert_id by (rewrite Htiles; apply lookup_insert_eq).
  destruct m1 as [[] ? ?]. cbn in *. by subst.
Qed.

(** X17.  Two calls of [insert] with the same bytes, at whatever
    coordinates, leave one blob row with their checksum when none had it
    before. *)
Lemma insert_twice_one_blob m a b m1 m2 :
  fault (db m) = None →
  TileFetchResult.BlobPNG a = TileFetchResult.BlobPNG b →
  filter (λ row, row.1 = checksum (TileFetchResult.BlobPNG a)) (tile_blobs (db m)) = [] →
  insert m a = Some m1 →
  insert m1 b = Some m2 →
  filter (λ row, row.1 = checksum (TileFetchResult.BlobPNG a)) (tile_blobs (db m2))
  = [(checksum (TileFetchResult.BlobPNG a), TileFetchResult.BlobPNG a)].
Proof.
  intros Hfault Hsame Hnone Ha Hb.
  destruct (insert_spec m a Hfault) as (m1' & Ha' & _ & Hf1 & _ & Hblobs1 & _).
  rewrite Ha in Ha'. injection Ha' as <-.
  destruct (insert_spec m1 b Hf1) as (m2' & Hb' & _ & _ & _ & Hblobs2 & _).
  rewrite Hb in Hb'. injection Hb' as <-.
  rewrite Hblobs2, <- Hsame.
  assert (Hrows : filter (λ row, row.1 = checksum (TileFetchResult.BlobPNG a))
                    (tile_blobs (db m1))
                  = [(checksum (TileFetchResult.BlobPNG a), TileFetchResult.BlobPNG a)]).
  { rewrite Hblobs1. unfold blobs_after. rewrite Hnone.
    by rewrite filter_app, Hnone, filter_cons_True. }
  unfold blobs_after. rewrite Hrows. exact Hrows.
Qed.

End Dedup.

(** C5 (the code at the failing input).  One BatchInsert of two results with
    the same bytes at different coordinates, into a new cache, leaves two
    blob rows with that content's checksum, in whichever order its two
    goroutines run; two calls of Insert with the same results leave one. *)
Theorem BatchInsert_duplicates_blob (H : Md5) :
  let s := checksum (TileFetchResult.BlobPNG Inputs.twin_a) in
  let row := (s, TileFetchResult.BlobPNG Inputs.twin_a) in
  TileFetchResult.BlobPNG Inputs.twin_a = TileFetchResult.BlobPNG Inputs.twin_b ∧
  (∃ m' inserts',
     BatchInsert [0; 1]%nat Inputs.fresh_cache [Inputs.twin_a; Inputs.twin_b]
       = Some (m', inserts') ∧
     tile_blobs (db m') = [row; row]) ∧
  (∃ m' inserts',
     BatchInsert [1; 0]%nat Inputs.fresh_cache [Inputs.twin_a; Inputs.twin_b]
       = Some (m', inserts') ∧
     tile_blobs (db m') = [row; row]) ∧
  (∃ m1 m2,
     insert Inputs.fresh_cache Inputs.twin_a = Some m1 ∧
     insert m1 Inputs.twin_b = Some m2 ∧
     tile_blobs (db m2) = [row]).
Proof.
  cbn zeta. split; [reflexivity|].
  split; [eexists _, _; split; vm_compute; reflexivity|].
  split; [eexists _, _; split; vm_compute; reflexivity|].
  destruct (insert_spec Inputs.fresh_cache Inputs.twin_a eq_refl)
    as (m1 & Ha & _ & Hf1 & _ & Hblobs1 & _).
  destruct (insert_spec m1 Inputs.twin_b Hf1)
    as (m2 & Hb & _ & _ & _ & Hblobs2 & _).
  exists m1, m2. split; [exact Ha|]. split; [exact Hb|].
  assert (Hrow1 : tile_blobs (db m1) =
                  [(checksum (TileFetchResult.BlobPNG Inputs.twin_a),
                    TileFetchResult.BlobPNG Inputs.twin_a)])
    by (rewrite Hblobs1; reflexivity).
  rewrite Hblobs2.
  change (TileFetchResult.BlobPNG Inputs.twin_b)
    with (TileFetchResult.BlobPNG Inputs.twin_a).
  unfold blobs_after. rewrite Hrow1.
  by rewrite filter_cons_True.
Qed.

(** ** The tile server *)

(** C6.  For every tile request served with a cache configured: if the
    cache fetch yields bytes, those bytes are written to the client, the
    request is not submitted to the multiplexer and nothing is inserted; if
    the fetch yields no bytes, the original request is submitted, and then a
    reply with bytes is written to the client and inserted into the cache
    after the response, while a reply without bytes produces a not-found
    response and no insert. *)
Theorem ServeTileRequest_read_through
    (t : TileServer) (tc : TileCoord.t) (ch : chan)
    (fetched : TileFetchResult.t) (rest : list TileFetchResult.t)
    (write_err : option error) :
  has_cache t = true →
  let tr := TileFetchRequest.mk tc ch in
  let logs := match write_err with Some e => [LogPrintln e] | None => [] end in
  (∀ b, TileFetchResult.BlobPNG fetched = Some b →
     ServeTileRequest t tc ch (fetched :: rest) write_err =
       (Returned,
        [CacheRequest tr; SetHeader "Content-Type" "image/png"; Write (Some b)] ++ logs)) ∧
  (TileFetchResult.BlobPNG fetched = None →
     (∀ reply rest' b, rest = reply :: rest' → TileFetchResult.BlobPNG reply = Some b →
        ServeTileRequest t tc ch (fetched :: rest) write_err =
          (Returned,
           [CacheRequest tr; Submit tr; SetHeader "Content-Type" "image/png";
            Write (Some b)] ++ logs ++ [CacheInsert reply])) ∧
     (∀ reply rest', rest = reply :: rest' → TileFetchResult.BlobPNG reply = None →
        ServeTileRequest t tc ch (fetched :: rest) write_err =
          (Returned, [CacheRequest tr; Submit tr; NotFound])) ∧
     (rest = [] →
        ServeTileRequest t tc ch (fetched :: rest) write_err =
          (BlockedOnReceive, [CacheRequest tr; Submit tr]))).
Proof.
  intros Hcache tr logs. unfold ServeTileRequest. rewrite Hcache. cbn [andb].
  split.
  - intros b Hb. rewrite Hb. subst logs. by destruct write_err.
  - intros Hmiss. rewrite Hmiss. split; [|split].
    + intros reply rest' b -> Hb. rewrite Hb. subst logs. by destruct write_err.
    + intros reply rest' -> Hb. by rewrite Hb.
    + by intros ->.
Qed.

Lemma ServeTileRequest_read_through_witness :
  let tr := TileFetchRequest.mk Inputs.tile 9%nat in
  ServeTileRequest Inputs.caching_server Inputs.tile 9%nat [Inputs.hit] None =
    (Returned, [CacheRequest tr; SetHeader "Content-Type" "image/png";
                Write (Some [Byte.x89])]) ∧
  ServeTileRequest Inputs.caching_server Inputs.tile 9%nat
      [Inputs.miss; Inputs.rendered] None =
    (Returned, [CacheRequest tr; Submit tr; SetHeader "Content-Type" "image/png";
                Write (Some [Byte.x89; Byte.x50]); CacheInsert Inputs.rendered]) ∧
  ServeTileRequest Inputs.caching_server Inputs.tile 9%nat
      [Inputs.miss; Inputs.failed] None =
    (Returned, [CacheRequest tr; Submit tr; NotFound]).
Proof.
  cbn zeta. split; [|split].
  - apply (proj1 (ServeTileRequest_read_through Inputs.caching_server Inputs.tile
                    9%nat Inputs.hit [] None eq_refl) [Byte.x89] eq_refl).
  - apply (proj1 (proj2 (ServeTileRequest_read_through Inputs.caching_server
                    Inputs.tile 9%nat Inputs.miss [Inputs.rendered] None eq_refl)
                    eq_refl) Inputs.rendered [] [Byte.x89; Byte.x50] eq_refl eq_refl).
  - apply (proj1 (proj2 (proj2 (ServeTileRequest_read_through Inputs.caching_server
                    Inputs.tile 9%nat Inputs.miss [Inputs.failed] None eq_refl)
                    eq_refl)) Inputs.failed [] eq_refl eq_refl).
Defined.

(* ===================================================================== *)
(** * Further properties *)
(* ===================================================================== *)

(** ** File names and request paths *)

Lemma append_nil_l (s : string) : EmptyString +:+ s = s.
Proof. reflexivity. Qed.

Lemma append_cons a (s t : string) : String a s +:+ t = String a (s +:+ t).
Proof. reflexivity. Qed.

Lemma span_run (p : Ascii.ascii → bool) (run rest : string) :
  all_in p run = true → stops p rest → span p (run +:+ rest) = (run, rest).
Proof.
  intros Hrun Hrest. induction run as [|a run IH].
  - rewrite append_nil_l. destruct rest as [|b rest]; [reflexivity|].
    cbn in *. by rewrite Hrest.
  - rewrite append_cons. cbn in *.
    apply andb_true_iff in Hrun as [Ha Hrun].
    by rewrite Ha, (IH Hrun).
Qed.

Lemma group_run (p : Ascii.ascii → bool) (run rest : string) :
  all_in p run = true → run ≠ EmptyString → stops p rest →
  group p (run +:+ rest) = Some (run, rest).
Proof.
  intros Hrun Hne Hrest. unfold group. rewrite span_run by done.
  by rewrite bool_decide_false.
Qed.

Lemma string_of_uint_digits (d : Decimal.uint) :
  all_in is_digit (DecimalString.NilEmpty.string_of_uint d) = true.
Proof. induction d; cbn; try done. Qed.

Lemma fmt_d_digits n : all_in is_digit (fmt_d n) = true.
Proof. apply string_of_uint_digits. Qed.

Lemma fmt_d_nonempty n : fmt_d n ≠ EmptyString.
Proof.
  unfold fmt_d. destruct (Z.to_N n) as [|p]; [discriminate|].
  cbn. pose proof (DecimalPos.Unsigned.to_uint_nonnil p) as Hnil.
  by destruct (Pos.to_uint p).
Qed.

Lemma ParseUint_fmt_d n :
  0 ≤ n → ParseUint (fmt_d n) = Z.min n (2 ^ 64 - 1).
Proof.
  intros Hn. unfold ParseUint, fmt_d.
  rewrite DecimalString.NilEmpty.usu, DecimalN.Unsigned.of_to, Z2N.id by done.
  destruct (Z.ltb_spec n (2 ^ 64)); lia.
Qed.

Lemma ParseUint_range s : is_uint64 (ParseUint s).
Proof.
  unfold ParseUint, is_uint64.
  destruct (DecimalString.NilEmpty.uint_of_string s) as [d|]; [|lia].
  cbn zeta. destruct (Z.ltb_spec (Z.of_N (N.of_uint d)) (2 ^ 64)); lia.
Qed.

Lemma FindStringSubmatch_here s groups :
  pathRegex_here s = Some groups → FindStringSubmatch s = Some groups.
Proof. intros Hhere. destruct s; cbn [FindStringSubmatch]; by rewrite Hhere. Qed.

Lemma strip_slash (s : string) : strip_prefix "/" ("/" +:+ s) = Some s.
Proof. reflexivity. Qed.

Lemma strip_png (s : string) : strip_prefix ".png" (".png" +:+ s) = Some s.
Proof. reflexivity. Qed.

Lemma alnum_stops_at_slash (s : string) : stops is_alnum ("/" +:+ s).
Proof. reflexivity. Qed.

Lemma digits_stop_at_slash (s : string) : stops is_digit ("/" +:+ s).
Proof. reflexivity. Qed.

Lemma digits_stop_at_dot (s : string) : stops is_digit (".png" +:+ s).
Proof. reflexivity. Qed.

Lemma option_bind_Some {A B : Type} (f : A → option B) (a : A) : Some a ≫= f = f a.
Proof. reflexivity. Qed.

(** The pattern matches a path written as [/layer/zoom/x/y.png] at its
    start and captures the four parts. *)
Lemma pathRegex_here_path (l z x y tail : string) :
  all_in is_alnum l = true → l ≠ EmptyString →
  all_in is_digit z = true → z ≠ EmptyString →
  all_in is_digit x = true → x ≠ EmptyString →
  all_in is_digit y = true → y ≠ EmptyString →
  pathRegex_here ("/" +:+ l +:+ "/" +:+ z +:+ "/" +:+ x +:+ "/" +:+ y +:+ ".png" +:+ tail)
  = Some (l, z, x, y).
Proof.
  intros Hl Hl0 Hz Hz0 Hx Hx0 Hy Hy0. unfold pathRegex_here.
  rewrite strip_slash, option_bind_Some.
  rewrite (group_run is_alnum l), option_bind_Some
    by (assumption || apply alnum_stops_at_slash).
  rewrite strip_slash, option_bind_Some.
  rewrite (group_run is_digit z), option_bind_Some
    by (assumption || apply digits_stop_at_slash).
  rewrite strip_slash, option_bind_Some.
  rewrite (group_run is_digit x), option_bind_Some
    by (assumption || apply digits_stop_at_slash).
  rewrite strip_slash, option_bind_Some.
  rewrite (group_run is_digit y), option_bind_Some
    by (assumption || apply digits_stop_at_dot).
  by rewrite strip_png.
Qed.

Lemma span_sound (p : Ascii.ascii → bool) (s run rest : string) :
  span p s = (run, rest) → all_in p run = true ∧ s = run +:+ rest.
Proof.
  revert run rest. induction s as [|a s IH]; intros run rest; cbn.
  - by intros [= <- <-].
  - destruct (p a) eqn:Ha.
    + destruct (span p s) as [run' rest'] eqn:Hspan. intros [= <- <-].
      destruct (IH run' rest' eq_refl) as [Hall ->].
      cbn. by rewrite Ha, Hall.
    + by intros [= <- <-].
Qed.

Lemma group_sound (p : Ascii.ascii → bool) (s run rest : string) :
  group p s = Some (run, rest) →
  all_in p run = true ∧ run ≠ EmptyString ∧ s = run +:+ rest.
Proof.
  unfold group. destruct (span p s) as [run' rest'] eqn:Hspan.
  case_bool_decide as Hne; [discriminate|]. intros [= <- <-].
  destruct (span_sound p s run' rest' Hspan) as [Hall ->]. done.
Qed.

Lemma strip_prefix_sound (pre s rest : string) :
  strip_prefix pre s = Some rest → s = pre +:+ rest.
Proof.
  revert s. induction pre as [|a pre IH]; intros s; cbn.
  - by intros [= ->].
  - destruct s as [|b s]; [discriminate|].
    case_bool_decide as Hab; [|discriminate]. subst b.
    intros Hrest. by rewrite (IH s Hrest).
Qed.

Lemma pathRegex_here_sound (s l z x y : string) :
  pathRegex_here s = Some (l, z, x, y) →
  (∃ tail, s = "/" +:+ l +:+ "/" +:+ z +:+ "/" +:+ x +:+ "/" +:+ y +:+ ".png" +:+ tail) ∧
  (all_in is_alnum l = true ∧ l ≠ EmptyString) ∧
  (all_in is_digit z = true ∧ z ≠ EmptyString) ∧
  (all_in is_digit x = true ∧ x ≠ EmptyString) ∧
  (all_in is_digit y = true ∧ y ≠ EmptyString).
Proof.
  unfold pathRegex_here. intros Hm.
  destruct (strip_prefix "/" s) as [s1|] eqn:H1; [|discriminate].
  rewrite option_bind_Some in Hm.
  destruct (group is_alnum s1) as [[l' s2]|] eqn:Hl; [|discriminate].
  rewrite option_bind_Some in Hm.
  destruct (strip_prefix "/" s2) as [s3|] eqn:H3; [|discriminate].
  rewrite option_bind_Some in Hm.
  destruct (group is_digit s3) as [[z' s4]|] eqn:Hz; [|discriminate].
  rewrite option_bind_Some in Hm.
  destruct (strip_prefix "/" s4) as [s5|] eqn:H5; [|discriminate].
  rewrite option_bind_Some in Hm.
  destruct (group is_digit s5) as [[x' s6]|] eqn:Hx; [|discriminate].
  rewrite option_bind_Some in Hm.
  destruct (strip_prefix "/" s6) as [s7|] eqn:H7; [|discriminate].
  rewrite option_bind_Some in Hm.
  destruct (group is_digit s7) as [[y' s8]|] eqn:Hy; [|discriminate].
  rewrite option_bind_Some in Hm.
  destruct (strip_prefix ".png" s8) as [s9|] eqn:H9; [|discriminate].
  injection Hm as <- <- <- <-.
  apply strip_prefix_sound in H1, H3, H5, H7, H9.
  apply group_sound in Hl as (? & ? & Hl), Hz as (? & ? & Hz),
    Hx as (? & ? & Hx), Hy as (? & ? & Hy).
  split; [|done]. exists s9. by subst.
Qed.

Lemma FindStringSubmatch_sound (s : string) groups :
  FindStringSubmatch s = Some groups →
  ∃ pre rest, s = pre +:+ rest ∧ pathRegex_here rest = Some groups.
Proof.
  induction s as [|a s IH]; cbn [FindStringSubmatch].
  - destruct (pathRegex_here EmptyString) eqn:Hhere; [|discriminate].
    intros [= <-]. by exists EmptyString, EmptyString.
  - destruct (pathRegex_here (String a s)) eqn:Hhere.
    + intros [= <-]. by exists EmptyString, (String a s).
    + intros (pre & rest & -> & Hrest)%IH. by exists (String a pre), rest.
Qed.

(** X1.  A tile's [OSMFilename] under its layer name is a path [ServeHTTP]
    parses back to the same tile: for a layer name of letters and digits the
    request [/layer/zoom/x/y.png] is served as the request for that
    coordinate, in the scheme the server is configured for. *)
Theorem ServeHTTP_serves_OSMFilename
    (t : TileServer) (c : TileCoord.t) (ch : chan)
    (incoming : list TileFetchResult.t) (write_err : option error) :
  TileCoord.wf c →
  all_in is_alnum (TileCoord.Layer c) = true →
  TileCoord.Layer c ≠ EmptyString →
  ServeHTTP t ("/" +:+ TileCoord.Layer c +:+ "/" +:+ OSMFilename c) ch incoming write_err =
  ServeTileRequest t
    (TileCoord.mk (TileCoord.X c) (TileCoord.Y c) (TileCoord.Zoom c)
       (TmsSchema t) (TileCoord.Layer c)) ch incoming write_err.
Proof.
  intros (HX & HY & HZ) Hl Hl0. unfold ServeHTTP, OSMFilename.
  pose proof (pathRegex_here_path (TileCoord.Layer c) (fmt_d (TileCoord.Zoom c))
                (fmt_d (TileCoord.X c)) (fmt_d (TileCoord.Y c)) EmptyString
                Hl Hl0 (fmt_d_digits _) (fmt_d_nonempty _) (fmt_d_digits _)
                (fmt_d_nonempty _) (fmt_d_digits _) (fmt_d_nonempty _)) as Hhere.
  change (".png" +:+ EmptyString) with ".png" in Hhere.
  rewrite (FindStringSubmatch_here _ _ Hhere). cbn zeta.
  unfold is_uint64 in *.
  rewrite !ParseUint_fmt_d by lia.
  by rewrite !Z.min_l by lia.
Qed.

Lemma ServeHTTP_serves_OSMFilename_witness :
  OSMFilename Inputs.tile = "1/0/0.png" ∧
  ServeHTTP Inputs.caching_server ("/" +:+ "default" +:+ "/" +:+ OSMFilename Inputs.tile)
    9%nat [Inputs.hit] None =
  ServeTileRequest Inputs.caching_server (TileCoord.mk 0 0 1 false "default")
    9%nat [Inputs.hit] None.
Proof.
  split; [reflexivity|].
  apply (ServeHTTP_serves_OSMFilename Inputs.caching_server Inputs.tile 9%nat
           [Inputs.hit] None).
  - unfold TileCoord.wf, is_uint64. cbn. lia.
  - reflexivity.
  - discriminate.
Defined.

(** X2.  Whatever path [ServeHTTP] finds a match in, the four parts it
    reads stand in the path as [/layer/zoom/x/y.png], the layer name is a
    non-empty run of letters and digits, and the coordinate it goes on to
    serve has its three numbers within [uint64]. *)
Theorem FindStringSubmatch_groups (path l z x y : string) (tms : bool) :
  FindStringSubmatch path = Some (l, z, x, y) →
  (∃ pre tail,
     path = pre +:+ "/" +:+ l +:+ "/" +:+ z +:+ "/" +:+ x +:+ "/" +:+ y +:+ ".png" +:+ tail) ∧
  all_in is_alnum l = true ∧ l ≠ EmptyString ∧
  all_in is_digit z = true ∧ all_in is_digit x = true ∧ all_in is_digit y = true ∧
  TileCoord.wf (TileCoord.mk (ParseUint x) (ParseUint y) (ParseUint z) tms l).
Proof.
  intros (pre & rest & -> & Hhere)%FindStringSubmatch_sound.
  apply pathRegex_here_sound in Hhere
    as ([tail ->] & [Hl Hl0] & [Hz _] & [Hx _] & [Hy _]).
  split; [by exists pre, tail|].
  repeat split; try done; apply ParseUint_range.
Qed.

Lemma FindStringSubmatch_groups_witness :
  (∃ pre tail,
     "/tiles/roads/3/1/2.png?v=1" =
     pre +:+ "/" +:+ "roads" +:+ "/" +:+ "3" +:+ "/" +:+ "1" +:+ "/" +:+ "2" +:+ ".png" +:+ tail) ∧
  all_in is_alnum "roads" = true ∧ "roads" ≠ EmptyString ∧
  all_in is_digit "3" = true ∧ all_in is_digit "1" = true ∧ all_in is_digit "2" = true ∧
  TileCoord.wf (TileCoord.mk (ParseUint "1") (ParseUint "2") (ParseUint "3") false "roads").
Proof.
  apply (FindStringSubmatch_groups "/tiles/roads/3/1/2.png?v=1" "roads" "3" "1" "2" false).
  vm_compute. reflexivity.
Defined.



(** ** Registering layers *)

(** X4.  [AddSource] routes the requests of the named layer to the given
    queue, replacing a queue registered under that name before, and leaves
    the routing of every other layer as it was. *)
Theorem AddSource_routes
    (l : LayerMultiplex) (name : string) (c : chan) (r : FetchRequest) (w : Runtime) :
  SubmitRequest (AddSource l name c) r w =
  if decide (GetLayer r = name) then (true, enqueue c r w)
  else SubmitRequest l r w.
Proof.
  unfold SubmitRequest, AddSource. cbn [layerChans].
  case_decide as Hname.
  - subst name. by rewrite lookup_insert_eq.
  - by rewrite lookup_insert_ne.
Qed.

(** X5.  The multiplexer [DefaultRenderMultiplex] builds accepts the layer
    names "" and "default" and no other, and sends the requests of both to
    one queue, which is new and empty. *)
Theorem DefaultRenderMultiplex_routes
    (GOMAXPROCS : Z) (stylesheet : string) (numRenderers : Z)
    (w : Runtime) (r : FetchRequest) :
  let l := (DefaultRenderMultiplex GOMAXPROCS stylesheet numRenderers w).1 in
  let w' := (DefaultRenderMultiplex GOMAXPROCS stylesheet numRenderers w).2 in
  let c := fresh (dom (queues w)) in
  queues w !! c = None ∧
  queues w' = <[c := []]> (queues w) ∧
  replies w' = replies w ∧
  SubmitRequest l r w' =
    if decide (GetLayer r = "" ∨ GetLayer r = "default") then (true, enqueue c r w')
    else (false, log_Println ("No such layer " +:+ GetLayer r) w').
Proof.
  cbn zeta. unfold DefaultRenderMultiplex, CreateRenderer. cbn [fst snd].
  split; [apply not_elem_of_dom, is_fresh|].
  split; [reflexivity|]. split; [reflexivity|].
  unfold SubmitRequest, AddSource, NewLayerMultiplex. cbn [layerChans].
  case_decide as Hname.
  - destruct Hname as [-> | ->].
    + by rewrite lookup_insert_ne, lookup_insert_eq.
    + by rewrite lookup_insert_eq.
  - rewrite !lookup_insert_ne, lookup_empty by naive_solver. reflexivity.
Qed.

(** ** Workers *)

(** Taking the oldest request and accepting a new one commute: a request
    submitted later does not change what the worker does next. *)
Lemma Listen_step_enqueue `{Renderer} c r r0 q w :
  queues w !! c = Some (r0 :: q) →
  Listen_step c (enqueue c r w) =
  (λ step, (step.1, enqueue c r step.2)) <$> Listen_step c w.
Proof.
  intros Hq. unfold Listen_step, enqueue. cbn [queues replies logged].
  rewrite lookup_insert_eq, Hq. cbn [default id app].
  destruct (ProcessRequest r0 _) as [out sent].
  cbn [fmap option_fmap option_map fst snd queues replies logged].
  rewrite lookup_insert_eq. cbn [default id].
  by rewrite !insert_insert_eq.
Qed.



(** X7.  A tile request submitted for a registered layer whose queue is
    empty is answered by the next step of a worker on that queue: exactly
    one result is added to the request's reply channel, for the coordinate
    as the request gave it, never with both bytes and an error, and the
    queue is empty again. *)
Theorem submitted_tile_request_is_answered
    (R : Renderer) (l : LayerMultiplex) (r : TileFetchRequest.t) (c : chan) (w : Runtime) :
  layerChans l !! TileCoord.Layer (TileFetchRequest.Coord r) = Some c →
  default [] (queues w !! c) = [] →
  ∃ res w2,
    Listen_step c (SubmitRequest l (TileRequest r) w).2 = Some (Ok tt, w2) ∧
    replies w2 !! TileFetchRequest.OutChan r =
      Some (default [] (replies w !! TileFetchRequest.OutChan r) ++ [res]) ∧
    (∀ ch, ch ≠ TileFetchRequest.OutChan r → replies w2 !! ch = replies w !! ch) ∧
    queues w2 !! c = Some [] ∧
    TileFetchResult.Coord res = TileFetchRequest.Coord r ∧
    exclusive res.
Proof.
  intros Hl Hq. unfold SubmitRequest. cbn [GetLayer FetchRequest_FetchRequest
    TileFetchRequest_FetchRequest]. rewrite Hl. cbn [snd].
  unfold Listen_step, enqueue. cbn [queues replies logged].
  rewrite lookup_insert_eq, Hq. cbn [app].
  cbn [GetOutChan FetchRequest_FetchRequest TileFetchRequest_FetchRequest].
  unfold ProcessRequest. cbn [IsMetaTile GetCoord FetchRequest_FetchRequest
    TileFetchRequest_FetchRequest].
  unfold mbind, Proc_bind, call.
  destruct (processRequestTile_exclusive (TileFetchRequest.Coord r)
              (default [] (replies w !! TileFetchRequest.OutChan r)))
    as (res & -> & Hcoord & Hex).
  exists res. eexists. split; [reflexivity|]. cbn [queues replies].
  split; [apply lookup_insert_eq|].
  split; [intros ch Hch; by apply lookup_insert_ne|].
  split; [apply lookup_insert_eq | done].
Qed.

Lemma submitted_tile_request_is_answered_witness :
  ∃ res w2,
    @Listen_step Mock.blank 7%nat
      (SubmitRequest Inputs.roads_only
         (TileRequest (TileFetchRequest.mk (TileCoord.mk 1 2 3 false "roads") 1%nat))
         Inputs.idle).2 = Some (Ok tt, w2) ∧
    replies w2 !! 1%nat = Some (default [] (replies Inputs.idle !! 1%nat) ++ [res]) ∧
    (∀ ch, ch ≠ 1%nat → replies w2 !! ch = replies Inputs.idle !! ch) ∧
    queues w2 !! 7%nat = Some [] ∧
    TileFetchResult.Coord res = TileCoord.mk 1 2 3 false "roads" ∧
    exclusive res.
Proof.
  apply (submitted_tile_request_is_answered Mock.blank Inputs.roads_only
           (TileFetchRequest.mk (TileCoord.mk 1 2 3 false "roads") 1%nat) 7%nat
           Inputs.idle).
  - vm_compute. reflexivity.
  - reflexivity.
Defined.

(** ** Rendering in either scheme *)

Lemma TileCoord_setTMS_same c : TileCoord.setTMS c (TileCoord.Tms c) = c.
Proof. unfold TileCoord.setTMS. by rewrite bool_decide_false by naive_solver. Qed.

Lemma MetaTileCoord_setTMS_same c : MetaTileCoord.setTMS c (MetaTileCoord.Tms c) = c.
Proof. unfold MetaTileCoord.setTMS. by rewrite bool_decide_false by naive_solver. Qed.

Lemma bool_cases (a b : bool) : a = b ∨ a = negb b.
Proof. destruct a, b; auto. Qed.

(** Converting by way of another scheme is converting directly. *)
Lemma TileCoord_setTMS_setTMS c a b :
  TileCoord.wf c →
  TileCoord.setTMS (TileCoord.setTMS c a) b = TileCoord.setTMS c b.
Proof.
  intros Hwf.
  destruct (bool_cases a (TileCoord.Tms c)) as [-> | ->].
  - by rewrite TileCoord_setTMS_same.
  - destruct (bool_cases b (TileCoord.Tms c)) as [-> | ->].
    + by rewrite TileCoord_setTMS_back, TileCoord_setTMS_same.
    + apply TileCoord_setTMS_idempotent.
Qed.

Lemma MetaTileCoord_setTMS_setTMS c a b :
  MetaTileCoord.wf c →
  MetaTileCoord.setTMS (MetaTileCoord.setTMS c a) b = MetaTileCoord.setTMS c b.
Proof.
  intros Hwf.
  destruct (bool_cases a (MetaTileCoord.Tms c)) as [-> | ->].
  - by rewrite MetaTileCoord_setTMS_same.
  - destruct (bool_cases b (MetaTileCoord.Tms c)) as [-> | ->].
    + by rewrite MetaTileCoord_setTMS_back, MetaTileCoord_setTMS_same.
    + apply MetaTileCoord_setTMS_idempotent.
Qed.

(** X8.  Rendering does not depend on the scheme a coordinate is given in:
    a tile or a block converted to either scheme is rendered as the
    unconverted one is, with the same bytes, the same error and, for a
    block, the same result coordinates. *)
Theorem render_scheme_independent
    (R : Renderer) (c : TileCoord.t) (m : MetaTileCoord.t) (tms : bool) :
  TileCoord.wf c → MetaTileCoord.wf m →
  RenderTile (TileCoord.setTMS c tms) = RenderTile c ∧
  RenderMetaTile (MetaTileCoord.setTMS m tms) = RenderMetaTile m.
Proof.
  intros Hc Hm. split.
  - unfold RenderTile. by rewrite TileCoord_setTMS_setTMS.
  - unfold RenderMetaTile. by rewrite MetaTileCoord_setTMS_setTMS.
Qed.

Lemma render_scheme_independent_witness :
  @RenderTile Mock.blank (TileCoord.setTMS Inputs.tile true) =
    @RenderTile Mock.blank Inputs.tile ∧
  @RenderMetaTile Mock.blank (MetaTileCoord.setTMS Inputs.block2x2 true) =
    @RenderMetaTile Mock.blank Inputs.block2x2.
Proof.
  apply (render_scheme_independent Mock.blank Inputs.tile Inputs.block2x2 true).
  - unfold TileCoord.wf, is_uint64. cbn. lia.
  - unfold MetaTileCoord.wf, is_uint64. cbn. lia.
Defined.

(** ** Blocks the worker cannot serve *)

(** X9.  A metatile request whose block has MaxX < MinX or MaxY < MinY makes
    the worker panic in [Count] before anything is rendered or sent, and
    [TileCoords] panics on it as well; the error [RenderMetaTile] has for
    such a block is not what the requester gets. *)
Theorem processRequestMeta_invalid_block_panics
    (R : Renderer) (c : MetaTileCoord.t) (ch : list TileFetchResult.t) :
  MetaTileCoord.MaxX c < MetaTileCoord.MinX c ∨
    MetaTileCoord.MaxY c < MetaTileCoord.MinY c →
  processRequestMeta c ch = (Panicked PanicInvalidMetatile, ch) ∧
  MetaTileCoord.TileCoords c = Panicked PanicInvalidMetatile ∧
  (MetaTileCoord.MaxX c < MetaTileCoord.MinX c →
   RenderMetaTile c = Ok ([], Some "Invalid metatile coordinates"%string)).
Proof.
  intros Hinv.
  assert (MetaTileCoord.XSize c = Panicked PanicInvalidMetatile ∨
          (∃ xSize, MetaTileCoord.XSize c = Ok xSize) ∧
          MetaTileCoord.YSize c = Panicked PanicInvalidMetatile) as Hsize.
  { unfold MetaTileCoord.XSize, MetaTileCoord.YSize.
    destruct (Z.ltb_spec (MetaTileCoord.MaxX c) (MetaTileCoord.MinX c)); [by left|].
    right. split; [eauto|].
    destruct (Z.ltb_spec (MetaTileCoord.MaxY c) (MetaTileCoord.MinY c)); [done|lia]. }
  split; [|split].
  - unfold processRequestMeta, MetaTileCoord.Count, mbind, Proc_bind, call.
    destruct Hsize as [-> | [[xSize ->] ->]]; reflexivity.
  - unfold MetaTileCoord.TileCoords.
    destruct Hsize as [-> | [[xSize ->] ->]]; reflexivity.
  - intros HX. unfold RenderMetaTile.
    assert (MetaTileCoord.MaxX (MetaTileCoord.setTMS c false) = MetaTileCoord.MaxX c ∧
            MetaTileCoord.MinX (MetaTileCoord.setTMS c false) = MetaTileCoord.MinX c)
      as [-> ->] by (unfold MetaTileCoord.setTMS; by case_bool_decide).
    destruct (Z.ltb_spec (MetaTileCoord.MaxX c) (MetaTileCoord.MinX c)); [done|lia].
Qed.

Lemma processRequestMeta_invalid_block_panics_witness :
  @processRequestMeta Mock.blank Samples.inverted_block [] =
    (Panicked PanicInvalidMetatile, []) ∧
  MetaTileCoord.TileCoords Samples.inverted_block = Panicked PanicInvalidMetatile ∧
  (MetaTileCoord.MaxX Samples.inverted_block < MetaTileCoord.MinX Samples.inverted_block →
   @RenderMetaTile Mock.blank Samples.inverted_block =
     Ok ([], Some "Invalid metatile coordinates"%string)).
Proof.
  apply (processRequestMeta_invalid_block_panics Mock.blank Samples.inverted_block []).
  left. cbn. lia.
Defined.

(** X10.  The guard of [RenderMetaTile] keeps [XSize] and [YSize] from
    panicking: the only panic a block render can end in is the one of
    [make], for a block of 2^63 tiles or more. *)
Theorem RenderMetaTile_panics_only_in_make
    (R : Renderer) (c : MetaTileCoord.t) (p : panic) :
  RenderMetaTile c = Panicked p → p = PanicMakesliceCap.
Proof.
  unfold RenderMetaTile.
  set (c' := MetaTileCoord.setTMS c false).
  unfold MetaTileCoord.XSize, MetaTileCoord.YSize.
  destruct (MetaTileCoord.MaxX c' <? MetaTileCoord.MinX c'); [discriminate|].
  destruct (MetaTileCoord.MaxY c' <? MetaTileCoord.MinY c'); [discriminate|].
  cbn. destruct (renderTileInternal _ _ _ _ _ _ _ _) as [blob [e|]]; [discriminate|].
  unfold makeslice. destruct (int_of_uint64 _ <? 0); cbn; [by intros [= <-]|].
  case_match; [discriminate|].
  destruct (png_Decode blob) as [img|e]; [|discriminate].
  destruct (Bounds_Min img). by case_match.
Qed.

Lemma RenderMetaTile_panics_only_in_make_witness :
  @RenderMetaTile Mock.blank Inputs.wide_block = Panicked PanicMakesliceCap ∧
  PanicMakesliceCap = PanicMakesliceCap.
Proof.
  assert (Hp : @RenderMetaTile Mock.blank Inputs.wide_block = Panicked PanicMakesliceCap)
    by (vm_compute; reflexivity).
  split; [exact Hp|].
  exact (RenderMetaTile_panics_only_in_make Mock.blank Inputs.wide_block _ Hp).
Defined.

Lemma processRequestMeta_panic_sends_nothing_witness :
  @processRequestMeta Mock.blank Inputs.overflowing_block [Inputs.hit] =
    (Panicked (PanicCountMismatch 0 2), [Inputs.hit]) ∧
  [Inputs.hit] = [Inputs.hit].
Proof.
  assert (Hp : @processRequestMeta Mock.blank Inputs.overflowing_block [Inputs.hit] =
               (Panicked (PanicCountMismatch 0 2), [Inputs.hit]))
    by (vm_compute; reflexivity).
  split; [exact Hp|].
  exact (processRequestMeta_panic_sends_nothing Mock.blank Inputs.overflowing_block
           _ _ _ Hp).
Defined.

(** ** What a block render returns *)

Lemma size_of_one a : is_uint64 a → add64 (sub64 a a) 1 = 1.
Proof.
  intros _. unfold add64, sub64. rewrite Z.sub_diag.
  by rewrite (wrap64_small 0), wrap64_small.
Qed.

Lemma MetaTileCoord_setTMS_wf c tms : MetaTileCoord.wf c → MetaTileCoord.wf (MetaTileCoord.setTMS c tms).
Proof.
  intros (? & ? & ? & ? & ?). unfold MetaTileCoord.setTMS.
  case_bool_decide; [|done].
  refine (conj _ (conj _ (conj _ (conj _ _)))); cbn; try done; apply wrap64_range.
Qed.

Lemma MetaTileCoord_setTMS_columns c tms :
  MetaTileCoord.MinX (MetaTileCoord.setTMS c tms) = MetaTileCoord.MinX c ∧
  MetaTileCoord.MaxX (MetaTileCoord.setTMS c tms) = MetaTileCoord.MaxX c ∧
  MetaTileCoord.Zoom (MetaTileCoord.setTMS c tms) = MetaTileCoord.Zoom c ∧
  MetaTileCoord.Layer (MetaTileCoord.setTMS c tms) = MetaTileCoord.Layer c ∧
  MetaTileCoord.Tms (MetaTileCoord.setTMS c tms) = tms.
Proof.
  unfold MetaTileCoord.setTMS. by case_bool_decide as Htms.
Qed.

(** X12.  The block of a single tile is rendered as [RenderTile] renders
    that tile: the engine's bytes are returned as they are, without a
    decoding or re-encoding step, under the tile's XYZ coordinate, and the
    engine's error is returned with no result. *)
Theorem RenderMetaTile_single_tile (R : Renderer) (c : MetaTileCoord.t) :
  MetaTileCoord.wf c →
  MetaTileCoord.MinX c = MetaTileCoord.MaxX c →
  MetaTileCoord.MinY c = MetaTileCoord.MaxY c →
  let tile := TileCoord.mk (MetaTileCoord.MinX c) (MetaTileCoord.MinY c)
                (MetaTileCoord.Zoom c) (MetaTileCoord.Tms c) (MetaTileCoord.Layer c) in
  RenderMetaTile c =
  match RenderTile tile with
  | (blob, None) =>
    Ok ([TileFetchResult.mk (TileCoord.setTMS tile false) blob None], None)
  | (_, Some e) => Ok ([], Some e)
  end.
Proof.
  intros Hwf HX HY tile.
  pose proof (MetaTileCoord_setTMS_wf c false Hwf) as Hwf'.
  unfold RenderMetaTile, RenderTile, RenderTileZXY.
  assert (Hshape :
    MetaTileCoord.MinX (MetaTileCoord.setTMS c false) = MetaTileCoord.MaxX (MetaTileCoord.setTMS c false) ∧
    MetaTileCoord.MinY (MetaTileCoord.setTMS c false) = MetaTileCoord.MaxY (MetaTileCoord.setTMS c false) ∧
    TileCoord.setTMS tile false =
      TileCoord.mk (MetaTileCoord.MinX (MetaTileCoord.setTMS c false))
        (MetaTileCoord.MinY (MetaTileCoord.setTMS c false))
        (MetaTileCoord.Zoom (MetaTileCoord.setTMS c false))
        (MetaTileCoord.Tms (MetaTileCoord.setTMS c false))
        (MetaTileCoord.Layer (MetaTileCoord.setTMS c false))).
  { subst tile. unfold MetaTileCoord.setTMS, TileCoord.setTMS. cbn.
    case_bool_decide; cbn; rewrite ?HX, ?HY; done. }
  destruct Hshape as (HX' & HY' & Htile).
  set (c' := MetaTileCoord.setTMS c false) in *.
  rewrite Htile. cbn [TileCoord.X TileCoord.Y TileCoord.Zoom].
  unfold MetaTileCoord.XSize, MetaTileCoord.YSize.
  rewrite <- HX', <- HY', !Z.ltb_irrefl. cbn [orb].
  destruct Hwf' as (Hx & Hy & _).
  rewrite !size_of_one by done. cbn.
  by destruct (renderTileInternal _ _ _ _ _ _ _ _) as [blob [e|]].
Qed.

Lemma RenderMetaTile_single_tile_witness :
  @RenderMetaTile Mock.blank Samples.single_tile_block =
  match @RenderTile Mock.blank Samples.tms_tile with
  | (blob, None) =>
    Ok ([TileFetchResult.mk (TileCoord.setTMS Samples.tms_tile false) blob None], None)
  | (_, Some e) => Ok ([], Some e)
  end.
Proof.
  apply (RenderMetaTile_single_tile Mock.blank Samples.single_tile_block).
  - unfold MetaTileCoord.wf, is_uint64. cbn. lia.
  - reflexivity.
  - reflexivity.
Defined.

Lemma shl64_range a n : is_uint64 (shl64 a n).
Proof. apply wrap64_range. Qed.

(** Converting a block whose rows exist at its zoom level keeps its height
    and the order of its two rows. *)
Lemma MetaTileCoord_setTMS_rows c tms :
  MetaTileCoord.wf c →
  MetaTileCoord.MinY c ≤ MetaTileCoord.MaxY c →
  MetaTileCoord.MaxY c < shl64 1 (MetaTileCoord.Zoom c) →
  MetaTileCoord.MinY (MetaTileCoord.setTMS c tms) ≤ MetaTileCoord.MaxY (MetaTileCoord.setTMS c tms) ∧
  MetaTileCoord.MaxY (MetaTileCoord.setTMS c tms) - MetaTileCoord.MinY (MetaTileCoord.setTMS c tms)
    = MetaTileCoord.MaxY c - MetaTileCoord.MinY c.
Proof.
  intros (_ & HminY & _ & HmaxY & _) Hle Hrows. unfold MetaTileCoord.setTMS.
  case_bool_decide; [|lia]. cbn. unfold is_uint64 in *.
  rewrite !flip64_below by (apply shl64_range || lia). lia.
Qed.

Lemma sliceAt_Coord `{Renderer} c img bx by_ x y :
  TileFetchResult.Coord (sliceAt c img bx by_ x y) = MetaTileCoord.tileAt c x y.
Proof. unfold sliceAt. by destruct (png_Encode _). Qed.



(** ** The tiles of a block *)

Lemma TileCoords_exact c :
  MetaTileCoord.wf c →
  MetaTileCoord.MinX c ≤ MetaTileCoord.MaxX c →
  MetaTileCoord.MinY c ≤ MetaTileCoord.MaxY c →
  (MetaTileCoord.MaxX c - MetaTileCoord.MinX c + 1) *
    (MetaTileCoord.MaxY c - MetaTileCoord.MinY c + 1) < 2 ^ 63 →
  MetaTileCoord.TileCoords c = Ok (MetaTileCoord.column_major c).
Proof.
  intros Hwf HX HY Hcount.
  remember (MetaTileCoord.MaxX c - MetaTileCoord.MinX c + 1) as wx eqn:Ewx.
  remember (MetaTileCoord.MaxY c - MetaTileCoord.MinY c + 1) as wy eqn:Ewy.
  assert (1 ≤ wx) by lia. assert (1 ≤ wy) by lia.
  assert (wx < 2 ^ 63) by nia. assert (wy < 2 ^ 63) by nia.
  unfold MetaTileCoord.TileCoords.
  rewrite (XSize_exact c), (YSize_exact c) by (assumption || lia).
  rewrite <- Ewx, <- Ewy. cbn [mbind result_bind mret result_ret].
  unfold makeslice, mul64. rewrite (wrap64_small (wx * wy)) by (unfold is_uint64; nia).
  rewrite !int_of_uint64_small by nia.
  destruct (Z.ltb_spec (wx * wy) 0); [nia|]. cbn [mbind result_bind].
  rewrite nested_loops_bind by lia.
  rewrite <- (list_fmap_id (MetaTileCoord.column_major c)).
  f_equal. rewrite Ewx, Ewy.
  apply (loops_column_major id c); (assumption || lia).
Qed.

Lemma column_major_elem_of c tc :
  tc ∈ MetaTileCoord.column_major c ↔
  MetaTileCoord.MinX c ≤ TileCoord.X tc ≤ MetaTileCoord.MaxX c ∧
  MetaTileCoord.MinY c ≤ TileCoord.Y tc ≤ MetaTileCoord.MaxY c ∧
  TileCoord.Zoom tc = MetaTileCoord.Zoom c ∧
  TileCoord.Tms tc = MetaTileCoord.Tms c ∧
  TileCoord.Layer tc = MetaTileCoord.Layer c.
Proof.
  unfold MetaTileCoord.column_major. rewrite list_elem_of_bind. split.
  - intros (x & (y & ->%list_elem_of_singleton & Hy%elem_of_seqZ)%list_elem_of_bind
              & Hx%elem_of_seqZ).
    cbn. repeat split; lia.
  - intros (Hx & Hy & Hz & Ht & Hl). exists (TileCoord.X tc).
    split; [|apply elem_of_seqZ; lia].
    apply list_elem_of_bind. exists (TileCoord.Y tc).
    split; [|apply elem_of_seqZ; lia].
    apply list_elem_of_singleton. destruct tc. cbn in *. by subst.
Qed.

Lemma column_major_NoDup c : NoDup (MetaTileCoord.column_major c).
Proof.
  unfold MetaTileCoord.column_major. apply NoDup_bind; [| |apply NoDup_seqZ].
  - intros x1 x2 tc _ _
      (y1 & ->%list_elem_of_singleton & _)%list_elem_of_bind
      (y2 & [= -> _]%list_elem_of_singleton & _)%list_elem_of_bind.
    reflexivity.
  - intros x _. apply NoDup_bind; [| |apply NoDup_seqZ].
    + intros y1 y2 tc _ _ ->%list_elem_of_singleton [= ->]%list_elem_of_singleton.
      reflexivity.
    + intros y _. apply NoDup_singleton.
Qed.



(** ** The cache: round trips *)


Lemma insert_idempotent_witness :
  ∃ m1,
    @insert Mock.digest Inputs.fresh_cache Inputs.twin_a = Some m1 ∧
    @insert Mock.digest m1 Inputs.twin_a = Some m1.
Proof.
  destruct (@insert_spec Mock.digest Inputs.fresh_cache Inputs.twin_a eq_refl)
    as (m1 & Hins & _).
  exists m1. split; [exact Hins|].
  apply (@insert_idempotent Mock.digest Inputs.fresh_cache Inputs.twin_a m1 eq_refl Hins).
Defined.

Lemma insert_twice_one_blob_witness :
  ∃ m1 m2,
    @insert Mock.digest Inputs.fresh_cache Inputs.twin_a = Some m1 ∧
    @insert Mock.digest m1 Inputs.twin_b = Some m2 ∧
    filter (λ row, row.1 = @checksum Mock.digest (TileFetchResult.BlobPNG Inputs.twin_a))
      (tile_blobs (db m2))
    = [(@checksum Mock.digest (TileFetchResult.BlobPNG Inputs.twin_a),
        TileFetchResult.BlobPNG Inputs.twin_a)].
Proof.
  destruct (@insert_spec Mock.digest Inputs.fresh_cache Inputs.twin_a eq_refl)
    as (m1 & Ha & _ & Hf1 & _).
  destruct (@insert_spec Mock.digest m1 Inputs.twin_b Hf1) as (m2 & Hb & _).
  exists m1, m2. split; [exact Ha|]. split; [exact Hb|].
  apply (@insert_twice_one_blob Mock.digest Inputs.fresh_cache Inputs.twin_a
           Inputs.twin_b m1 m2 eq_refl eq_refl eq_refl Ha Hb).
Defined.

(** X18.  The cache does not depend on the scheme a coordinate is given
    in: a fetch of a coordinate converted to either scheme delivers what the
    fetch of the unconverted one delivers, and an insert under the converted
    coordinate leaves the cache as the insert under the unconverted one
    does. *)
Theorem cache_scheme_independent
    (H : Md5) (m : TileDb) (c : TileCoord.t) (tms : bool) (ch : chan)
    (blob : option bytes) (err : option error) :
  TileCoord.wf c →
  fetch_result m (TileFetchRequest.mk (TileCoord.setTMS c tms) ch) =
    fetch_result m (TileFetchRequest.mk c ch) ∧
  insert m (TileFetchResult.mk (TileCoord.setTMS c tms) blob err) =
    insert m (TileFetchResult.mk c blob err).
Proof.
  intros Hwf. split.
  - unfold fetch_result. cbn [TileFetchRequest.Coord].
    by rewrite TileCoord_setTMS_setTMS.
  - unfold insert. cbn [TileFetchResult.Coord TileFetchResult.BlobPNG].
    by rewrite TileCoord_setTMS_setTMS.
Qed.

Lemma cache_scheme_independent_witness :
  fetch_result Inputs.dangling_cache
      (TileFetchRequest.mk (TileCoord.setTMS Inputs.tile true) 5%nat) =
    fetch_result Inputs.dangling_cache (TileFetchRequest.mk Inputs.tile 5%nat) ∧
  @insert Mock.digest Inputs.fresh_cache
      (TileFetchResult.mk (TileCoord.setTMS Inputs.tile true) (Some [Byte.x89]) None) =
    @insert Mock.digest Inputs.fresh_cache
      (TileFetchResult.mk Inputs.tile (Some [Byte.x89]) None).
Proof.
  split.
  - apply (cache_scheme_independent Mock.digest Inputs.dangling_cache Inputs.tile true
             5%nat None None).
    unfold TileCoord.wf, is_uint64. cbn. lia.
  - apply (cache_scheme_independent Mock.digest Inputs.fresh_cache Inputs.tile true
             5%nat (Some [Byte.x89]) None).
    unfold TileCoord.wf, is_uint64. cbn. lia.
Defined.

(** X19.  On a store whose statements fail, a fetch delivers the store's
    error with no bytes, under the converted coordinate, and an insert
    returns with the tables and the registry as they were. *)
Theorem failing_store_is_left_alone
    (H : Md5) (m : TileDb) (e : error) (r : TileFetchRequest.t) (i : TileFetchResult.t) :
  fault (db m) = Some e →
  fetch_result m r =
    TileFetchResult.mk (TileCoord.setTMS (TileFetchRequest.Coord r) true) None (Some e) ∧
  ∃ m', insert m i = Some m' ∧ db m' = db m ∧ layerIds m' = layerIds m.
Proof.
  intros Hfault. split.
  - unfold fetch_result, select_tile_data. by rewrite Hfault.
  - unfold insert, select_blob_exists. rewrite Hfault. eauto.
Qed.

Lemma failing_store_is_left_alone_witness :
  let closed :=
    {| db := {| layers := ["default"%string]; layered_tiles := ∅; tile_blobs := [];
                fault := Some "sql: database is closed"%string |};
       layerIds := {[ "default"%string := 1 ]};
       dblog := [] |} in
  fetch_result closed Inputs.xyz_request =
    TileFetchResult.mk (TileCoord.setTMS (TileFetchRequest.Coord Inputs.xyz_request) true)
      None (Some "sql: database is closed"%string) ∧
  ∃ m', @insert Mock.digest closed Inputs.twin_a = Some m' ∧
        db m' = db closed ∧ layerIds m' = layerIds closed.
Proof.
  cbn zeta.
  apply (failing_store_is_left_alone Mock.digest _ "sql: database is closed"%string
           Inputs.xyz_request Inputs.twin_a).
  reflexivity.
Defined.

(** ** The cache: what an insert keeps *)

Lemma with_db_same m : with_db m (db m) = m.
Proof. by destruct m. Qed.

Lemma Db_eta d :
  {| layers := layers d; layered_tiles := layered_tiles d;
     tile_blobs := tile_blobs d; fault := fault d |} = d.
Proof. by destruct d. Qed.

Lemma blobs_after_prefix d s blob : tile_blobs d `prefix_of` blobs_after d s blob.
Proof.
  unfold blobs_after. destruct (filter _ (tile_blobs d)); [by eexists|reflexivity].
Qed.

Lemma filter_checksum_nil (rows : list (string * option bytes)) s :
  filter (λ row, row.1 = s) rows = [] → s ∉ rows.*1.
Proof.
  intros Hnone (row & -> & Hrow)%list_elem_of_fmap.
  assert (row ∈ filter (λ row', row'.1 = row.1) rows) as Hin
    by (by apply list_elem_of_filter).
  rewrite Hnone in Hin. by apply not_elem_of_nil in Hin.
Qed.

Lemma filter_checksum_cons (rows : list (string * option bytes)) s row rows' :
  filter (λ row, row.1 = s) rows = row :: rows' → row ∈ rows ∧ row.1 = s.
Proof.
  intros Hrows.
  assert (row ∈ filter (λ row', row'.1 = s) rows) as Hin by (rewrite Hrows; left).
  apply list_elem_of_filter in Hin as [Hs Hrow]. by split.
Qed.

(** The map [readLayers] builds has the rowid of every name of the table. *)
Lemma readLayers_lookup_2 (names : list string) l id :
  NoDup names →
  (λ p, Z.of_nat (S p.1)) <$> list_find (λ n, n = l) names = Some id →
  foldl (λ ids row, <[row.2 := row.1]> ids) (∅ : gmap string Z)
    (imap (λ i s, (Z.of_nat (S i), s)) names) !! l = Some id.
Proof.
  induction names as [|name names IH] using rev_ind; intros Hnodup; [done|].
  apply NoDup_app in Hnodup as (Hnames & Hfresh & _).
  rewrite imap_app, foldl_app. cbn [imap foldl fst snd].
  destruct (decide (name = l)) as [->|Hne].
  - rewrite lookup_insert_eq. rewrite list_find_app_r.
    + cbn. rewrite decide_True by done. cbn. intros [= <-]. do 3 f_equal. lia.
    + apply list_find_None, Forall_forall. intros n Hn ->.
      apply (Hfresh l Hn). by left.
  - rewrite lookup_insert_ne by done. intros Hfind. apply IH; [done|].
    destruct (list_find (λ n, n = l) (names ++ [name])) as [[i n]|] eqn:Happ; [|done].
    apply list_find_app_Some in Happ as [-> | (_ & _ & Hlast)]; [done|].
    cbn in Hlast. by rewrite decide_False in Hlast.
Qed.

(** [ensureLayer] adds at most one name, at the end of the table, and
    keeps the id of every layer the registry knew. *)
Lemma ensureLayer_keeps m l m' :
  ensureLayer m l = Some m' →
  layers (db m) `prefix_of` layers (db m') ∧
  layered_tiles (db m') = layered_tiles (db m) ∧
  tile_blobs (db m') = tile_blobs (db m) ∧
  fault (db m') = fault (db m) ∧
  (registry_ok m →
   registry_ok m' ∧ ∀ l' id, layerIds m !! l' = Some id → layerIds m' !! l' = Some id).
Proof.
  unfold ensureLayer.
  destruct (layerIds m !! l) as [id|] eqn:Hid.
  { intros [= <-]. split_and!; [reflexivity|done..|].
    intros Hreg. split; [exact Hreg | auto]. }
  unfold insert_or_ignore_layer, readLayers.
  destruct (fault (db m)) as [e|] eqn:Hfault.
  { cbn [db tiledb_log]. by rewrite Hfault. }
  set (d' := if bool_decide (l ∈ layers (db m)) then db m else _).
  assert (fault d' = None ∧ layered_tiles d' = layered_tiles (db m) ∧
          tile_blobs d' = tile_blobs (db m) ∧
          layers (db m) `prefix_of` layers d' ∧
          (NoDup (layers (db m)) → NoDup (layers d')))
    as (Hf' & Htiles & Hblobs & Hprefix & Hnodup).
  { subst d'. case_bool_decide as Hin; [by split_and!|].
    cbn. split_and!; [done..|by eexists|].
    intros Hnd. apply NoDup_app. split; [done|]. split; [|apply NoDup_singleton].
    intros n Hn. rewrite list_elem_of_singleton. by intros ->. }
  clearbody d'. unfold with_db. cbn [db dblog]. rewrite Hf'. intros [= <-].
  cbn [db layerIds]. split_and!; [done..|].
  intros [Hnd Hreg]. specialize (Hnodup Hnd).
  split; [split; [exact Hnodup|]|].
  - intros l' id' Hl'. unfold layer_rowid. by apply readLayers_lookup.
  - intros l' id' Hl'. apply readLayers_lookup_2; [done|].
    apply Hreg in Hl'. unfold layer_rowid in Hl'.
    destruct (list_find (λ n, n = l') (layers (db m))) as [[i n]|] eqn:Hfind; [|done].
    destruct Hprefix as [extra ->].
    by rewrite (list_find_app_l _ _ _ _ _ Hfind).
Qed.

Section InsertKeeps.
Context `{Md5}.

(** [insert] on a store that answers is its three steps in a row: the blob
    row, the layer, the tile record. *)
Lemma insert_decompose m i :
  let coord := TileCoord.setTMS (TileFetchResult.Coord i) true in
  let l := default_layer (TileCoord.Layer coord) in
  let s := checksum (TileFetchResult.BlobPNG i) in
  fault (db m) = None →
  ∃ m1,
    ensureLayer
      (with_db m {| layers := layers (db m); layered_tiles := layered_tiles (db m);
                    tile_blobs := blobs_after (db m) s (TileFetchResult.BlobPNG i);
                    fault := fault (db m) |}) l = Some m1 ∧
    insert m i =
      Some (with_db m1
              {| layers := layers (db m1);
                 layered_tiles :=
                   <[(layerId m1 l, TileCoord.Zoom coord, TileCoord.X coord,
                      TileCoord.Y coord) := s]> (layered_tiles (db m1));
                 tile_blobs := tile_blobs (db m1);
                 fault := fault (db m1) |}).
Proof.
  intros coord l s Hfault. unfold insert, blobs_after. fold coord l s.
  unfold select_blob_exists, replace_into_tile_blobs. rewrite Hfault.
  destruct (filter _ (tile_blobs (db m))) as [|row rows] eqn:Hrows.
  - set (m0 := with_db m _).
    destruct (ensureLayer_ok m0 l eq_refl) as (m1 & Hens & _ & Hf1 & _).
    exists m1. split; [exact Hens|]. rewrite Hens. cbn [mbind option_bind].
    unfold replace_into_layered_tiles. rewrite Hf1. reflexivity.
  - rewrite <- Hfault, Db_eta, with_db_same.
    destruct (ensureLayer_ok m l Hfault) as (m1 & Hens & _ & Hf1 & _).
    exists m1. split; [exact Hens|]. rewrite Hens. cbn [mbind option_bind].
    unfold replace_into_layered_tiles. rewrite Hf1. cbn [foldl fst snd].
    by rewrite <- Hf1.
Qed.

End InsertKeeps.

Lemma layer_rowid_inj d a b id :
  layer_rowid d a = Some id → layer_rowid d b = Some id → a = b.
Proof.
  unfold layer_rowid. intros Ha Hb.
  destruct (list_find (λ n, n = a) (layers d)) as [[i n]|] eqn:Hfa; [|done].
  destruct (list_find (λ n, n = b) (layers d)) as [[j n']|] eqn:Hfb; [|done].
  cbn in Ha, Hb. injection Ha as <-. injection Hb as Hb.
  apply list_find_Some in Hfa as (Hi & -> & _).
  apply list_find_Some in Hfb as (Hj & -> & _).
  assert (i = j) as -> by lia. congruence.
Qed.

Lemma layer_rowid_prefix d d' l id :
  layers d `prefix_of` layers d' →
  layer_rowid d l = Some id → layer_rowid d' l = Some id.
Proof.
  intros [extra Hd'] Hl. unfold layer_rowid in *. rewrite Hd'.
  destruct (list_find _ (layers d)) as [[i n]|] eqn:Hfind; [|done].
  by rewrite (list_find_app_l _ _ _ _ _ Hfind).
Qed.

Section InsertInvariants.
Context `{Md5}.

(** [insert] extends the two tables it does not key and keeps the ids of
    the registry. *)
Lemma insert_keeps m i m' :
  fault (db m) = None →
  insert m i = Some m' →
  layers (db m) `prefix_of` layers (db m') ∧
  tile_blobs (db m) `prefix_of` tile_blobs (db m') ∧
  (registry_ok m → ∀ l id, layerIds m !! l = Some id → layerIds m' !! l = Some id).
Proof.
  intros Hfault Hins.
  destruct (insert_spec m i Hfault) as (m'' & Hins' & _ & _ & _ & Hblobs & _).
  rewrite Hins in Hins'. injection Hins' as <-.
  destruct (insert_decompose m i Hfault) as (m1 & Hens & Hins1).
  rewrite Hins in Hins1. injection Hins1 as Hm'.
  apply ensureLayer_keeps in Hens as (Hprefix & _ & _ & _ & Hreg).
  split_and!.
  - by rewrite Hm'.
  - rewrite Hblobs. apply blobs_after_prefix.
  - intros Hok l id Hid. rewrite Hm'. by apply (Hreg Hok).
Qed.

(** X20.  On a store that answers, [insert] only adds: the [layers] and
    [tile_blobs] tables are extended at their end, every layer the registry
    knew keeps its id, and every tile record but the one written is as it
    was. *)
Lemma insert_only_adds m i :
  let c := TileCoord.setTMS (TileFetchResult.Coord i) true in
  fault (db m) = None →
  registry_ok m →
  ∃ m', insert m i = Some m' ∧
        layers (db m) `prefix_of` layers (db m') ∧
        tile_blobs (db m) `prefix_of` tile_blobs (db m') ∧
        (∀ l id, layerIds m !! l = Some id → layerIds m' !! l = Some id) ∧
        (∀ key, key ≠ (layerId m' (default_layer (TileCoord.Layer c)),
                       TileCoord.Zoom c, TileCoord.X c, TileCoord.Y c) →
                layered_tiles (db m') !! key = layered_tiles (db m) !! key).
Proof.
  intros c Hfault Hreg.
  destruct (insert_spec m i Hfault) as (m' & Hins & _ & _ & _ & _ & Htiles & _).
  destruct (insert_keeps m i m' Hfault Hins) as (Hlayers & Hblobs & Hids).
  exists m'. split_and!; [done..|by apply Hids|].
  intros key Hkey. rewrite Htiles. by apply lookup_insert_ne.
Qed.

(** X21.  [insert] keeps the store consistent: on a store that answers and
    is consistent, it returns and leaves a store that answers and is
    consistent. *)
Lemma insert_keeps_consistent m i :
  fault (db m) = None →
  consistent m →
  ∃ m', insert m i = Some m' ∧ fault (db m') = None ∧ consistent m'.
Proof.
  intros Hfault (Hreg & Hrec & Hcov).
  destruct (insert_spec m i Hfault)
    as (m' & Hins & [id0 Hid0] & Hf' & _ & Hblobs & Htiles & Hreg').
  destruct (insert_keeps m i m' Hfault Hins) as (Hlayers & Hprefix & _).
  specialize (Hreg' Hreg).
  exists m'. split; [done|]. split; [done|]. split; [done|]. split.
  - intros id zoom x y s. rewrite Htiles.
    match goal with |- <[?k := _]> _ !! ?k' = _ → _ =>
      destruct (decide (k = k')) as [Heq|Hne] end.
    + intros _. injection Heq as <- _ _ _.
      eexists. unfold layerId. rewrite Hid0. cbn. by apply Hreg'.
    + rewrite lookup_insert_ne by done. intros Hs.
      destruct (Hrec _ _ _ _ _ Hs) as (l0 & Hl0).
      exists l0. by eapply layer_rowid_prefix.
  - intros key s. rewrite Htiles, Hblobs.
    match goal with |- <[?k := _]> _ !! _ = _ → _ =>
      destruct (decide (k = key)) as [<-|Hne] end.
    + rewrite lookup_insert_eq. intros [= <-].
      pose proof (blobs_after_has_row (db m)
                    (checksum (TileFetchResult.BlobPNG i))
                    (TileFetchResult.BlobPNG i)) as Hrow.
      destruct (filter _ (blobs_after _ _ _)) as [|row rows] eqn:Hrows; [done|].
      apply filter_checksum_cons in Hrows. by exists row.
    + rewrite lookup_insert_ne by done. intros Hs.
      destruct (Hcov _ _ Hs) as (row & Hrow & Hrows).
      exists row. split; [|done].
      destruct (blobs_after_prefix (db m) (checksum (TileFetchResult.BlobPNG i))
                  (TileFetchResult.BlobPNG i)) as [extra ->].
      apply elem_of_app. by left.
Qed.

Lemma fresh_cache_consistent : consistent Inputs.fresh_cache.
Proof.
  split; [exact fresh_cache_registry_ok|].
  split; [intros id zoom x y s | intros key s]; cbn; by rewrite lookup_empty.
Qed.

(** X22.  [insert] leaves every other tile as it was: on a consistent store
    that answers, a fetch that addresses another layer or another position
    than the inserted result returns after the insert what it returned
    before. *)
Lemma insert_leaves_other_tiles m i m' r :
  fault (db m) = None →
  consistent m →
  insert m i = Some m' →
  cache_key (TileFetchRequest.Coord r) ≠ cache_key (TileFetchResult.Coord i) →
  fetch_result m' r = fetch_result m r.
Proof.
  intros Hfault (Hreg & Hrec & Hcov) Hins Hkey.
  destruct (insert_spec m i Hfault)
    as (m'' & Hins' & [id0 Hid0] & Hf' & _ & Hblobs & Htiles & Hreg').
  rewrite Hins in Hins'. injection Hins' as <-. specialize (Hreg' Hreg).
  destruct (insert_keeps m i m' Hfault Hins) as (Hlayers & _ & _).
  unfold cache_key in Hkey. unfold fetch_result.
  set (cr := TileCoord.setTMS (TileFetchRequest.Coord r) true) in *.
  set (lr := default_layer (TileCoord.Layer cr)) in *.
  set (ci := TileCoord.setTMS (TileFetchResult.Coord i) true) in *.
  set (li := default_layer (TileCoord.Layer ci)) in *.
  enough (select_tile_data (db m') (TileCoord.Zoom cr) (TileCoord.X cr)
            (TileCoord.Y cr) lr =
          select_tile_data (db m) (TileCoord.Zoom cr) (TileCoord.X cr)
            (TileCoord.Y cr) lr) as -> by done.
  unfold select_tile_data. rewrite Hfault, Hf'.
  assert (∀ id, layer_rowid (db m') lr = Some id →
                (layerId m' li, TileCoord.Zoom ci, TileCoord.X ci, TileCoord.Y ci)
                ≠ (id, TileCoord.Zoom cr, TileCoord.X cr, TileCoord.Y cr)) as Hne.
  { intros id Hid [= Hid' Hz Hx Hy]. apply Hkey.
    unfold layerId in Hid'. rewrite Hid0 in Hid'. cbn in Hid'. subst id0.
    apply Hreg' in Hid0. rewrite (layer_rowid_inj _ _ _ _ Hid Hid0). congruence. }
  destruct (layer_rowid (db m) lr) as [id|] eqn:Hid.
  - pose proof (layer_rowid_prefix _ _ _ _ Hlayers Hid) as Hid'.
    rewrite Hid', Htiles, lookup_insert_ne by (by apply Hne).
    destruct (layered_tiles (db m) !! _) as [s|] eqn:Hs; [|done].
    rewrite Hblobs. destruct (Hcov _ _ Hs) as (row & Hrow & Hrows).
    unfold blobs_after.
    destruct (filter (λ row, row.1 = checksum _) (tile_blobs (db m))); [|done].
    rewrite filter_app.
    destruct (filter (λ row, row.1 = s) (tile_blobs (db m))) eqn:Hfs; [|done].
    exfalso. apply filter_checksum_nil in Hfs. apply Hfs.
    apply list_elem_of_fmap. eauto.
  - destruct (layer_rowid (db m') lr) as [id|] eqn:Hid'; [|done].
    rewrite Htiles, lookup_insert_ne by (by apply Hne).
    destruct (layered_tiles (db m) !! _) as [s|] eqn:Hs; [|done].
    destruct (Hrec _ _ _ _ _ Hs) as (l0 & Hl0).
    pose proof (layer_rowid_prefix _ _ _ _ Hlayers Hl0) as Hl0'.
    rewrite (layer_rowid_inj _ _ _ _ Hid' Hl0') in Hid. congruence.
Qed.

End InsertInvariants.

Lemma insert_only_adds_witness :
  ∃ m', @insert Mock.digest Inputs.fresh_cache Inputs.twin_a = Some m' ∧
        layers (db Inputs.fresh_cache) `prefix_of` layers (db m') ∧
        tile_blobs (db Inputs.fresh_cache) `prefix_of` tile_blobs (db m') ∧
        (∀ l id, layerIds Inputs.fresh_cache !! l = Some id →
                 layerIds m' !! l = Some id) ∧
        (∀ key, key ≠ (layerId m' "default", 1, 0, 1) →
                layered_tiles (db m') !! key =
                layered_tiles (db Inputs.fresh_cache) !! key).
Proof.
  exact (@insert_only_adds Mock.digest Inputs.fresh_cache Inputs.twin_a eq_refl
           fresh_cache_registry_ok).
Defined.

Lemma insert_keeps_consistent_witness :
  ∃ m', @insert Mock.digest Inputs.fresh_cache Inputs.twin_a = Some m' ∧
        fault (db m') = None ∧ consistent m'.
Proof.
  exact (@insert_keeps_consistent Mock.digest Inputs.fresh_cache Inputs.twin_a eq_refl
           fresh_cache_consistent).
Defined.

Lemma insert_leaves_other_tiles_witness :
  ∃ m', @insert Mock.digest Inputs.fresh_cache Inputs.twin_a = Some m' ∧
        fetch_result m' (TileFetchRequest.mk (TileCoord.mk 1 0 1 false "") 5%nat) =
        fetch_result Inputs.fresh_cache
          (TileFetchRequest.mk (TileCoord.mk 1 0 1 false "") 5%nat).
Proof.
  destruct (@insert_spec Mock.digest Inputs.fresh_cache Inputs.twin_a eq_refl)
    as (m' & Hins & _).
  exists m'. split; [exact Hins|].
  apply (@insert_leaves_other_tiles Mock.digest Inputs.fresh_cache Inputs.twin_a m'
           (TileFetchRequest.mk (TileCoord.mk 1 0 1 false "") 5%nat)
           eq_refl fresh_cache_consistent Hins).
  vm_compute. discriminate.
Defined.

(** ** The cache: batches *)

Lemma converted_idempotent i : converted (converted i) = converted i.
Proof. unfold converted. cbn. by rewrite TileCoord_setTMS_idempotent. Qed.

Section Batch.
Context `{Md5}.

(** On a store that answers, a goroutine of [BatchInsert] returns, leaves a
    store that answers, and converts its own entry of the slice. *)
Lemma BatchInsert_go_ok b idx :
  fault (db (b_m b)) = None →
  ∃ b', BatchInsert_go b idx = Some b' ∧
        fault (db (b_m b')) = None ∧
        ∀ k, b_inserts b' !! k =
             if decide (k = idx) then converted <$> b_inserts b !! k
             else b_inserts b !! k.
Proof.
  intros Hfault. unfold BatchInsert_go.
  destruct (b_inserts b !! idx) as [i|] eqn:Hi.
  - destruct (ensureLayer_ok (b_m b)
                (default_layer (TileCoord.Layer
                   (TileCoord.setTMS (TileFetchResult.Coord i) true))) Hfault)
      as (m1 & Hens & _ & Hf1 & _).
    cbn [TileFetchResult.Coord TileFetchResult.BlobPNG]. rewrite Hens.
    cbn [mbind option_bind]. unfold select_blob_exists. rewrite Hf1.
    assert (∀ k, <[idx := converted i]> (b_inserts b) !! k =
                 if decide (k = idx) then converted <$> b_inserts b !! k
                 else b_inserts b !! k) as Hlookup.
    { intros k. case_decide as Hk.
      - subst k. rewrite Hi. apply list_lookup_insert_eq. by eapply lookup_lt_Some.
      - by apply list_lookup_insert_ne. }
    destruct (filter _ (tile_blobs (db m1))); eexists; (split; [reflexivity|]);
      by split.
  - exists b. split; [done|]. split; [done|].
    intros k. case_decide as Hk; [|done]. subst k. by rewrite Hi.
Qed.

Lemma BatchInsert_gos_ok sched : ∀ b,
  fault (db (b_m b)) = None →
  ∃ b', BatchInsert_gos b sched = Some b' ∧
        fault (db (b_m b')) = None ∧
        ∀ k, b_inserts b' !! k =
             if decide (k ∈ sched) then converted <$> b_inserts b !! k
             else b_inserts b !! k.
Proof.
  induction sched as [|idx sched IH]; intros b Hfault.
  - exists b. split; [done|]. split; [done|]. intros k.
    by rewrite decide_False by apply not_elem_of_nil.
  - destruct (BatchInsert_go_ok b idx Hfault) as (b1 & Hgo & Hf1 & Hone).
    destruct (IH b1 Hf1) as (b' & Hgos & Hf' & Hrest).
    exists b'. cbn [BatchInsert_gos]. rewrite Hgo. cbn [mbind option_bind].
    split; [done|]. split; [done|]. intros k. rewrite Hrest, Hone.
    destruct (decide (k = idx)) as [->|Hk].
    + rewrite (decide_True (P := idx ∈ idx :: sched)) by left.
      destruct (decide (idx ∈ sched)); [|done].
      destruct (b_inserts b !! idx) as [i|]; [|done].
      cbn. by rewrite converted_idempotent.
    + destruct (decide (k ∈ sched)) as [Hin|Hout].
      * rewrite (decide_True (P := k ∈ idx :: sched)); [done | by right].
      * rewrite (decide_False (P := k ∈ idx :: sched)); [done|].
        intros [->|Hin]%elem_of_cons; done.
Qed.

(** Whatever its statements do, [BatchInsert] returns once its goroutines
    have. *)
Lemma BatchInsert_returns sched m inserts b :
  BatchInsert_gos {| b_m := m; b_inserts := inserts; b_tiles := []; b_blobs := [] |}
    sched = Some b →
  ∃ m', BatchInsert sched m inserts = Some (m', b_inserts b).
Proof.
  intros Hgos. unfold BatchInsert. rewrite Hgos. cbn [mbind option_bind].
  case_bool_decide.
  - destruct (replace_into_tile_blobs _ _); [|by eexists].
    destruct (b_tiles b); [by eexists|].
    destruct (replace_into_layered_tiles _ _); by eexists.
  - destruct (b_tiles b); [by eexists|].
    destruct (replace_into_layered_tiles _ _); by eexists.
Qed.

(** X23.  [BatchInsert] converts the caller's slice in place: on a store
    that answers, once every index has had its goroutine the call returns
    and each entry of the slice carries its coordinate in the TMS scheme,
    with the bytes and the error it had. *)
Lemma BatchInsert_converts_in_place sched m inserts :
  fault (db m) = None →
  (∀ idx, (idx < length inserts)%nat → idx ∈ sched) →
  ∃ m', BatchInsert sched m inserts = Some (m', converted <$> inserts).
Proof.
  intros Hfault Hsched.
  destruct (BatchInsert_gos_ok sched
              {| b_m := m; b_inserts := inserts; b_tiles := []; b_blobs := [] |} Hfault)
    as (b & Hgos & _ & Hlookup).
  destruct (BatchInsert_returns sched m inserts b Hgos) as (m' & Hret).
  exists m'. rewrite Hret. do 2 f_equal. apply list_eq. intros k.
  rewrite Hlookup, list_lookup_fmap. cbn [b_inserts].
  case_decide as Hk; [done|].
  destruct (inserts !! k) as [i|] eqn:Hi; [|done].
  exfalso. apply Hk, Hsched. by eapply lookup_lt_Some.
Qed.

(** X24.  An empty batch writes nothing: [BatchInsert] of no results leaves
    the store and the registry as they are and logs that its tile statement
    could not be prepared, whatever the store. *)
Lemma BatchInsert_empty sched m :
  BatchInsert sched m [] =
    Some (tiledb_log "error during tile statement preparation" m, []).
Proof.
  assert (∀ b, b_inserts b = [] → BatchInsert_gos b sched = Some b) as Hgos.
  { induction sched as [|idx sched IH]; intros b Hb; [done|].
    cbn [BatchInsert_gos]. unfold BatchInsert_go. rewrite Hb, lookup_nil.
    cbn [mbind option_bind]. by apply IH. }
  unfold BatchInsert. by rewrite Hgos.
Qed.

End Batch.

Lemma BatchInsert_converts_in_place_witness :
  ∃ m', @BatchInsert Mock.digest [1; 0]%nat Inputs.fresh_cache
          [Inputs.twin_a; Inputs.twin_b] =
        Some (m', converted <$> [Inputs.twin_a; Inputs.twin_b]).
Proof.
  apply (@BatchInsert_converts_in_place Mock.digest [1; 0]%nat Inputs.fresh_cache
           [Inputs.twin_a; Inputs.twin_b] eq_refl).
  intros idx Hidx. cbn in Hidx.
  destruct idx as [|[|idx]]; [by right; left | by left | lia].
Defined.

Section SingleBatch.
Context `{Md5}.

(** Registering a layer and replacing the blob table commute. *)
Lemma ensureLayer_with_blobs m l rows m1 :
  ensureLayer m l = Some m1 →
  ensureLayer
    (with_db m {| layers := layers (db m); layered_tiles := layered_tiles (db m);
                  tile_blobs := rows; fault := fault (db m) |}) l =
  Some (with_db m1 {| layers := layers (db m1); layered_tiles := layered_tiles (db m1);
                      tile_blobs := rows; fault := fault (db m1) |}).
Proof.
  unfold ensureLayer, with_db. cbn [db layerIds dblog].
  destruct (layerIds m !! l) as [id|]; [by intros [= <-]|].
  unfold insert_or_ignore_layer. cbn [fault layers layered_tiles tile_blobs].
  destruct (fault (db m)) as [e|] eqn:Hfault.
  { unfold readLayers, tiledb_log. cbn [db fault]. by rewrite Hfault. }
  unfold readLayers, select_layers. cbn [db layerIds dblog].
  case_bool_decide; cbn [fault layers layered_tiles tile_blobs];
    rewrite ?Hfault; intros [= <-];
    cbn [db layerIds dblog fault layers layered_tiles tile_blobs];
    by rewrite ?Hfault.
Qed.

(** X25.  A batch of one result is an [insert]: on a store that answers,
    [BatchInsert] of a single result leaves the cache exactly as [insert] of
    that result does. *)
Lemma BatchInsert_single m i :
  fault (db m) = None →
  ∃ m', insert m i = Some m' ∧
        BatchInsert [0%nat] m [i] = Some (m', [converted i]).
Proof.
  intros Hfault.
  destruct (insert_decompose m i Hfault) as (m0 & Hens0 & Hins).
  set (c := TileCoord.setTMS (TileFetchResult.Coord i) true) in *.
  set (l := default_layer (TileCoord.Layer c)) in *.
  set (s := checksum (TileFetchResult.BlobPNG i)) in *.
  destruct (ensureLayer_ok m l Hfault) as (m1 & Hens & _ & Hf1 & _ & Hblobs & _).
  rewrite (ensureLayer_with_blobs m l _ m1 Hens) in Hens0. injection Hens0 as <-.
  eexists. split; [exact Hins|].
  unfold BatchInsert. cbn [BatchInsert_gos]. unfold BatchInsert_go.
  cbn [b_inserts b_m b_tiles b_blobs lookup list_lookup
       TileFetchResult.Coord TileFetchResult.BlobPNG TileFetchResult.Error].
  fold c l s. rewrite Hens. cbn [mbind option_bind mret option_ret].
  unfold select_blob_exists, blobs_after. rewrite Hf1, Hblobs.
  unfold converted. fold c.
  destruct (filter (λ row, row.1 = s) (tile_blobs (db m))) as [|row rows];
    cbn -[insert]; rewrite ?bool_decide_true by lia; rewrite ?bool_decide_false by lia;
    unfold replace_into_tile_blobs, replace_into_layered_tiles; rewrite ?Hf1;
    cbn -[insert]; rewrite ?Hf1, ?Hblobs; reflexivity.
Qed.

End SingleBatch.

Lemma BatchInsert_single_witness :
  ∃ m', @insert Mock.digest Inputs.fresh_cache Inputs.twin_a = Some m' ∧
        @BatchInsert Mock.digest [0%nat] Inputs.fresh_cache [Inputs.twin_a] =
          Some (m', [converted Inputs.twin_a]).
Proof.
  exact (@BatchInsert_single Mock.digest Inputs.fresh_cache Inputs.twin_a eq_refl).
Defined.

(** ** The server: what a request does *)

Ltac serve_cases t incoming write_err :=
  unfold ServeTileRequest;
  destruct t as [[] ?]; destruct incoming as [|[? [?|] ?] [|[? [?|] ?] ?]];
  destruct write_err; cbn.

(** X26.  [ServeTileRequest] answers a request once or not at all: when it
    returns it has sent exactly one response, a not-found or a body, and
    when it waits for a result that never comes it has sent none.  A body
    it writes is never nil, and the PNG content type is set along with
    it. *)
Lemma ServeTileRequest_responds_once t tc ch incoming write_err :
  length (filter is_response (ServeTileRequest t tc ch incoming write_err).2) =
    match (ServeTileRequest t tc ch incoming write_err).1 with
    | Returned => 1%nat
    | BlockedOnReceive => 0%nat
    end ∧
  ∀ body, Write body ∈ (ServeTileRequest t tc ch incoming write_err).2 →
          is_Some body ∧
          SetHeader "Content-Type" "image/png"
            ∈ (ServeTileRequest t tc ch incoming write_err).2.
Proof.
  serve_cases t incoming write_err;
    (split; [reflexivity|]); intros body Hbody;
    repeat (apply elem_of_cons in Hbody as [Hbody|Hbody]; try discriminate);
    try (by apply elem_of_nil in Hbody);
    injection Hbody as ->; (split; [by eexists|]);
    repeat first [by left | right].
Qed.

(** X27.  [ServeTileRequest] talks to the cache only when there is one, and
    inserts only what it rendered and served: an inserted result has bytes,
    those bytes were written as the body, the request had been submitted to
    the renderers, and no not-found was sent. *)
Lemma ServeTileRequest_inserts_what_it_served t tc ch incoming write_err :
  let acts := (ServeTileRequest t tc ch incoming write_err).2 in
  (∀ tr, CacheRequest tr ∈ acts → has_cache t = true) ∧
  (∀ result, CacheInsert result ∈ acts →
             has_cache t = true ∧
             is_Some (TileFetchResult.BlobPNG result) ∧
             Write (TileFetchResult.BlobPNG result) ∈ acts ∧
             Submit (TileFetchRequest.mk tc ch) ∈ acts ∧
             NotFound ∉ acts).
Proof.
  cbn zeta.
  serve_cases t incoming write_err;
    (split; [intros tr' Hin | intros result Hin]);
    repeat (apply elem_of_cons in Hin as [Hin|Hin]; try discriminate);
    try (by apply elem_of_nil in Hin); try done;
    injection Hin as ->; cbn;
    (split; [done|]); (split; [by eexists|]);
    (split; [repeat first [by left | right]|]);
    (split; [repeat first [by left | right]|]);
    intros Hnot;
    repeat (apply elem_of_cons in Hnot as [Hnot|Hnot]; try discriminate);
    by apply elem_of_nil in Hnot.
Qed.

(** ** The cache: a batch on a failing store *)

Lemma TileCoord_setTMS_Layer c tms :
  TileCoord.Layer (TileCoord.setTMS c tms) = TileCoord.Layer c.
Proof. unfold TileCoord.setTMS. by case_bool_decide. Qed.

Lemma ensureLayer_failing m l e :
  fault (db m) = Some e →
  ensureLayer m l = if layerIds m !! l is Some _ then Some m else None.
Proof.
  intros Hfault. unfold ensureLayer. destruct (layerIds m !! l); [done|].
  unfold insert_or_ignore_layer, readLayers. rewrite Hfault.
  cbn [db tiledb_log]. by rewrite Hfault.
Qed.

Section FailingBatch.
Context `{Md5}.

Lemma BatchInsert_go_failing b idx e b1 :
  fault (db (b_m b)) = Some e →
  BatchInsert_go b idx = Some b1 →
  fault (db (b_m b1)) = Some e ∧
  layerIds (b_m b1) = layerIds (b_m b) ∧
  (∀ i, b_inserts b !! idx = Some i →
        is_Some (layerIds (b_m b) !!
                   default_layer (TileCoord.Layer (TileFetchResult.Coord i)))) ∧
  ∀ k, k ≠ idx → b_inserts b1 !! k = b_inserts b !! k.
Proof.
  intros Hfault. unfold BatchInsert_go.
  destruct (b_inserts b !! idx) as [i|] eqn:Hi.
  - cbn [TileFetchResult.Coord TileFetchResult.BlobPNG].
    rewrite (ensureLayer_failing _ _ e Hfault), TileCoord_setTMS_Layer.
    destruct (layerIds (b_m b) !! _) as [id|] eqn:Hid; [|done].
    cbn [mbind option_bind]. unfold select_blob_exists. rewrite Hfault.
    intros [= <-]. cbn [b_m b_inserts db layerIds tiledb_log].
    split_and!; [done..| |].
    + intros i' [= <-]. by eexists.
    + intros k Hk. by apply list_lookup_insert_ne.
  - intros [= <-]. by split_and!.
Qed.

Lemma BatchInsert_gos_failing sched e idx i : ∀ b,
  fault (db (b_m b)) = Some e →
  b_inserts b !! idx = Some i →
  layerIds (b_m b) !! default_layer (TileCoord.Layer (TileFetchResult.Coord i)) = None →
  idx ∈ sched →
  BatchInsert_gos b sched = None.
Proof.
  induction sched as [|idx0 sched IH]; intros b Hfault Hi Hl Hin.
  { by apply elem_of_nil in Hin. }
  cbn [BatchInsert_gos].
  destruct (BatchInsert_go b idx0) as [b1|] eqn:Hgo; [|done].
  cbn [mbind option_bind].
  destruct (BatchInsert_go_failing b idx0 e b1 Hfault Hgo) as (Hf1 & Hids & Hknown & Hrest).
  destruct (decide (idx = idx0)) as [->|Hne].
  - destruct (Hknown i Hi) as [id Hid]. congruence.
  - apply IH; [done | by rewrite Hrest | by rewrite Hids |].
    apply elem_of_cons in Hin as [?|?]; done.
Qed.

(** X28.  On a store whose statements fail, [BatchInsert] does not return
    when a result of the batch names a layer the registry does not know:
    registering the layer ends in [log.Fatal].  ([insert] on the same store
    logs the error and returns.) *)
Lemma BatchInsert_failing_store_exits sched m inserts e idx i :
  fault (db m) = Some e →
  inserts !! idx = Some i →
  layerIds m !! default_layer (TileCoord.Layer (TileFetchResult.Coord i)) = None →
  idx ∈ sched →
  BatchInsert sched m inserts = None.
Proof.
  intros Hfault Hi Hl Hin. unfold BatchInsert.
  by rewrite (BatchInsert_gos_failing sched e idx i
                {| b_m := m; b_inserts := inserts; b_tiles := []; b_blobs := [] |}
                Hfault Hi Hl Hin).
Qed.

End FailingBatch.

Lemma BatchInsert_failing_store_exits_witness :
  @BatchInsert Mock.digest [0%nat]
    {| db := {| layers := ["default"%string]; layered_tiles := ∅; tile_blobs := [];
                fault := Some "disk I/O error"%string |};
       layerIds := {[ "default"%string := 1 ]}; dblog := [] |}
    [TileFetchResult.mk (TileCoord.mk 0 0 1 false "roads") (Some [Byte.x89]) None]
  = None.
Proof.
  eapply (@BatchInsert_failing_store_exits Mock.digest) with
    (e := "disk I/O error"%string) (idx := 0%nat)
    (i := TileFetchResult.mk (TileCoord.mk 0 0 1 false "roads") (Some [Byte.x89]) None);
    [reflexivity | reflexivity | reflexivity | by left].
Defined.

(** ** The multiplexer: a queue per layer *)

(** X29.  [AddRenderer] gives the layer a queue of its own.  When every
    registered queue is one the runtime has, the queue the layer gets is new
    and empty, no other layer is routed to it, the routing of the other
    layers and the contents of the other queues are as before, and every
    registered queue is still one the runtime has. *)
Theorem AddRenderer_own_queue
    (l : LayerMultiplex) (name stylesheet : string) (w : Runtime) :
  (∀ other c, layerChans l !! other = Some c → is_Some (queues w !! c)) →
  ∃ c, layerChans (AddRenderer l name stylesheet w).1 !! name = Some c ∧
       queues w !! c = None ∧
       queues (AddRenderer l name stylesheet w).2 !! c = Some [] ∧
       (∀ other, other ≠ name →
          layerChans (AddRenderer l name stylesheet w).1 !! other =
            layerChans l !! other ∧
          layerChans l !! other ≠ Some c) ∧
       (∀ c', c' ≠ c →
          queues (AddRenderer l name stylesheet w).2 !! c' = queues w !! c') ∧
       (∀ other c', layerChans (AddRenderer l name stylesheet w).1 !! other = Some c' →
          is_Some (queues (AddRenderer l name stylesheet w).2 !! c')).
Proof.
  intros Hknown. unfold AddRenderer, CreateRenderer, AddSource.
  cbn [fst snd layerChans queues].
  set (c := fresh (dom (queues w))).
  assert (queues w !! c = None) as Hfresh by apply not_elem_of_dom, is_fresh.
  exists c. split_and!.
  - apply lookup_insert_eq.
  - exact Hfresh.
  - apply lookup_insert_eq.
  - intros other Hother. split; [by apply lookup_insert_ne|].
    intros Hc. apply Hknown in Hc as [q Hq]. congruence.
  - intros c' Hc'. by apply lookup_insert_ne.
  - intros other c'. destruct (decide (name = other)) as [->|Hne].
    + rewrite lookup_insert_eq. intros [= <-]. rewrite lookup_insert_eq. by eexists.
    + rewrite lookup_insert_ne by done. intros Hc'.
      destruct (Hknown _ _ Hc') as [q Hq].
      rewrite lookup_insert_ne by congruence. by eexists.
Qed.

Lemma AddRenderer_own_queue_witness :
  ∃ c, layerChans (AddRenderer Inputs.roads_only "rivers" "rivers.xml" Samples.busy).1
         !! "rivers"%string = Some c ∧
       queues Samples.busy !! c = None ∧
       queues (AddRenderer Inputs.roads_only "rivers" "rivers.xml" Samples.busy).2 !! c
         = Some [] ∧
       (∀ other, other ≠ "rivers"%string →
          layerChans (AddRenderer Inputs.roads_only "rivers" "rivers.xml" Samples.busy).1
            !! other = layerChans Inputs.roads_only !! other ∧
          layerChans Inputs.roads_only !! other ≠ Some c) ∧
       (∀ c', c' ≠ c →
          queues (AddRenderer Inputs.roads_only "rivers" "rivers.xml" Samples.busy).2
            !! c' = queues Samples.busy !! c') ∧
       (∀ other c',
          layerChans (AddRenderer Inputs.roads_only "rivers" "rivers.xml" Samples.busy).1
            !! other = Some c' →
          is_Some (queues
                     (AddRenderer Inputs.roads_only "rivers" "rivers.xml" Samples.busy).2
                     !! c')).
Proof.
  apply (AddRenderer_own_queue Inputs.roads_only "rivers" "rivers.xml" Samples.busy).
  intros other c. unfold Inputs.roads_only, AddSource, NewLayerMultiplex.
  cbn [layerChans]. rewrite insert_empty.
  intros [_ <-]%lookup_singleton_Some. by eexists.
Defined.
